(** * Batch-normalised LSTM cell and TextRNN classifier (RNN/text_rnn.py)

    A shallow embedding of [RNN/text_rnn.py].  The Python file builds a
    TensorFlow-1 graph and the graph is executed later, so every modelled
    function has two stages:

    - a _build_ stage (monad [B]): what the Python body does when it is
      called: variable scopes, [tf.get_variable], static shapes, Python
      exceptions;
    - a _run_ stage (monad [X]): what one execution of the constructed
      operations does with the values fed to it and with the current values
      of the variables.

    The numeric carrier is abstract (class [Scalar]): no algebraic law is
    assumed of the arithmetic, so the structural theorems hold for every
    interpretation of the operations, IEEE arithmetic included; the
    theorems about signs and bounds assume the laws of [order_laws] and
    nothing else.  Library
    functions whose bodies are not part of the repository (NumPy's random
    source and SVD, TensorFlow's default initializer, the bidirectional
    recurrence) are the fields of class [Lib]. *)

From Stdlib Require Import ZArith QArith Qabs Qminmax Reals Qreals Lra Lia.
From stdpp Require Import gmap strings list pretty.

Set Default Proof Using "Type".
Local Open Scope string_scope.
Local Open Scope list_scope.
Local Open Scope nat_scope.

(** ** Scalars *)

Class Scalar (T : Type) : Type := {
  szero : T;
  sone : T;
  sadd : T → T → T;
  ssub : T → T → T;
  smul : T → T → T;
  sdiv : T → T → T;
  srsqrt : T → T;            (* tf.rsqrt *)
  ssigmoid : T → T;          (* tensorflow.sigmoid *)
  stanh : T → T;             (* tensorflow.tanh *)
  sxent : T → T → T;         (* one entry of sigmoid_cross_entropy_with_logits,
                                labels first, logits second *)
  sconst : Q → T;            (* a decimal literal of the source *)
  sofnat : nat → T;          (* an element count *)
  scast : T → T              (* conversion to the graph's dtype *)
}.

(** ** Errors raised while the graph is built *)

Inductive pyerror : Type :=
  | ValueError (msg : string)
  | IndexError (msg : string)
  | AttributeError (msg : string)
  | NotModelled (msg : string).

(** ** Values, variables and the two monads *)

(** What a variable, a constant or a placeholder holds: a rank-1 or rank-2
    tensor of scalars (a matrix is the list of its rows, the batch axis is
    axis 0), one scalar, a matrix of token indices, or a boolean. *)
Inductive value (T : Type) : Type :=
  | Vec (v : list T)
  | Mat (m : list (list T))
  | Scal (r : T)
  | Ints (m : list (list nat))
  | Flag (b : bool).
Arguments Vec {T} v.
Arguments Mat {T} m.
Arguments Scal {T} r.
Arguments Ints {T} m.
Arguments Flag {T} b.

(** A graph variable: the shape it was declared with, whether it is in the
    trainable collection, and its current value (its initial value until an
    assignment runs). *)
Record variable (T : Type) : Type := Variable_ {
  var_shape : list nat;
  var_trainable : bool;
  var_value : value T
}.
Arguments Variable_ {T} _ _ _.
Arguments var_shape {T} _.
Arguments var_trainable {T} _.
Arguments var_value {T} _.

(** The variable scope a Python body runs in. *)
Record vscope : Type := VScope {
  vs_name : string;
  vs_reuse : bool
}.

(** State of graph construction: the variables created so far and the state
    of the random source the initializers draw from. *)
Record bstate (T rng : Type) : Type := BState {
  graph_vars : gmap string (variable T);
  np_seed : rng
}.
Arguments BState {T rng} _ _.
Arguments graph_vars {T rng} _.
Arguments np_seed {T rng} _.

(** Build stage: a Python body run in a variable scope either raises or
    returns, and may create variables. *)
Definition B (T rng A : Type) : Type :=
  vscope → bstate T rng → pyerror + (A * bstate T rng).

(** Run stage: one execution reads the fed values and the variables, may
    assign to variables, and fails when it reads a variable or a placeholder
    that is absent or of the wrong kind. *)
Definition X (T A : Type) : Type :=
  gmap string (value T) → gmap string (variable T) →
  option (A * gmap string (variable T)).

Section Tensors.
Context {T : Type} {SC : Scalar T}.

Local Abbreviation vec := (list T).
Local Abbreviation mat := (list (list T)).

Definition vmap (f : T → T) (v : vec) : vec := map f v.
Definition mmap (f : T → T) (m : mat) : mat := map (map f) m.

(** Elementwise operations on tensors of equal shape.  (On operands of
    different shapes TensorFlow broadcasts or refuses, and these functions
    pair the common prefix: they stand for [+] and [*] on operands of one
    shape only.) *)
Definition vadd (a b : vec) : vec := zip_with sadd a b.
Definition vsub (a b : vec) : vec := zip_with ssub a b.
Definition vmul (a b : vec) : vec := zip_with smul a b.
Definition madd (a b : mat) : mat := zip_with vadd a b.
Definition mmul (a b : mat) : mat := zip_with vmul a b.

(** A rank-1 tensor broadcast over the rows of a rank-2 tensor. *)
Definition madd_row (m : mat) (v : vec) : mat := map (λ r, vadd r v) m.
Definition mmul_row (m : mat) (v : vec) : mat := map (λ r, vmul r v) m.

(** A scalar broadcast over a tensor. *)
Definition vscale (v : vec) (k : T) : vec := map (λ e, smul e k) v.
Definition madd_scalar (m : mat) (k : T) : mat := mmap (λ e, sadd e k) m.

Definition ssum (v : vec) : T := foldr sadd szero v.
Definition dot (a b : vec) : T := ssum (vmul a b).

(** Column [j] of a matrix, and its first [n] columns. *)
Definition column (m : mat) (j : nat) : vec := map (λ r, nth j r szero) m.
Definition columns (m : mat) (n : nat) : list vec := map (column m) (seq 0 n).

(** [tf.matmul x w] where [w] has [n] columns and as many rows as [x] has
    columns.  (TensorFlow refuses other operands, and this function then
    multiplies what it finds: it stands for the product of operands that
    fit only.) *)
Definition matmul (n : nat) (x w : mat) : mat :=
  map (λ row, map (dot row) (columns w n)) x.

(** An elementwise binary operation along one axis, as TensorFlow
    broadcasts it when the operands' lengths are only known at execution:
    axes of equal length are paired, an axis of length one is repeated along
    the other, and any other pair of lengths fails the execution. *)
Definition broadcast {A B C : Type} (f : A → B → C) (a : list A) (b : list B)
    : option (list C) :=
  if bool_decide (length a = length b) then Some (zip_with f a b)
  else match a, b with
       | [a0], _ => Some (map (f a0) b)
       | _, [b0] => Some (map (λ e, f e b0) a)
       | _, _ => None
       end.

(** The same on both axes of rank-2 tensors. *)
Definition broadcast2 (f : T → T → T) (a b : mat) : option mat :=
  broadcast (broadcast f) a b ≫= mapM (λ r, r).

(** [tf.reduce_mean] of a rank-1 tensor. *)
Definition reduce_mean (v : vec) : T := sdiv (ssum v) (sofnat (length v)).

(** [tf.nn.moments x [0]] for [x] of static width [size]: mean and
    variance of every feature over the batch axis. *)
Definition moments (size : nat) (x : mat) : vec * vec :=
  let cs := columns x size in
  let mean := map reduce_mean cs in
  let variance :=
    map (λ c, let m := reduce_mean c in
              reduce_mean (map (λ e, smul (ssub e m) (ssub e m)) c)) cs in
  (mean, variance).

(** [tf.nn.batch_normalization x mean variance offset scale epsilon]:
    [inv = rsqrt (variance + epsilon) * scale] and the result is
    [x * inv + (offset - mean * inv)], the vectors broadcast over rows. *)
Definition batch_normalization
    (x : mat) (mean variance offset scale : vec) (epsilon : T) : mat :=
  let inv := vmul (map (λ v, srsqrt (sadd v epsilon)) variance) scale in
  madd_row (mmul_row x inv) (vsub offset (vmul mean inv)).

(** [array_ops.split value num axis=1] for [value] of static width
    [width]: [num] slices of [width / num] consecutive columns each. *)
Definition array_split (width num : nat) (value : mat) : list mat :=
  map (λ k, map (λ r, take (width / num) (drop (k * (width / num)) r)) value)
      (seq 0 num).

(** [tf.concat [a; b] axis=2] and [tf.reduce_mean _ axis=1] on rank-3
    tensors (lists of per-example matrices, one row per time step). *)
Definition concat2 (a b : list mat) : list mat :=
  zip_with (zip_with (λ r1 r2 : vec, r1 ++ r2)) a b.
Definition reduce_mean_time (width : nat) (t : list mat) : mat :=
  map (λ m, map reduce_mean (columns m width)) t.

(** [tf.nn.l2_loss]: half the sum of the squares. *)
Definition l2_loss_vec (v : vec) : T :=
  sdiv (ssum (map (λ e, smul e e) v)) (sconst 2).
Definition l2_loss_mat (m : mat) : T := l2_loss_vec (concat m).

(** Constant tensors. *)
Definition full_vec (n : nat) (k : T) : vec := replicate n k.
Definition full_mat (r c : nat) (k : T) : mat := replicate r (replicate c k).

(** [np.identity n]. *)
Definition identity (n : nat) : mat :=
  map (λ i, map (λ j, if Nat.eqb i j then sone else szero) (seq 0 n)) (seq 0 n).

(** The shape NumPy reports for a matrix given by its rows. *)
Definition shape_of (m : mat) : nat * nat :=
  (length m, match m with [] => 0 | r :: _ => length r end).

(** Every row has the given width. *)
Definition rows_of_width (w : nat) (m : mat) : Prop := Forall (λ r, length r = w) m.

End Tensors.

(** ** Library functions the repository calls but does not define *)

Definition initializer (T rng : Type) : Type :=
  list nat → rng → pyerror + (value T * rng).

Class Lib (T rng : Type) : Type := {
  (* np.random.normal 0.0 1.0 shape, drawing from NumPy's global source *)
  np_random_normal : nat * nat → rng → list (list T) * rng;
  (* np.linalg.svd a full_matrices=False, the triple (u, s, v) *)
  np_linalg_svd : list (list T) → list (list T) * list T * list (list T);
  (* the initializer tf.get_variable falls back on when none is given and
     the enclosing scopes set none (a Glorot uniform draw) *)
  default_initializer : initializer T rng;
  (* tf.contrib.layers.xavier_initializer () *)
  xavier_initializer : initializer T rng;
  (* tf.random_uniform shape minval maxval *)
  tf_random_uniform : nat * nat → T → T → rng → list (list T) * rng;
  (* rnn.BasicLSTMCell hidden_size, twice, each under rnn.DropoutWrapper,
     run by tf.nn.bidirectional_dynamic_rnn over inputs of the given static
     depth: building creates the cells' variables, running takes the keep
     probability and the embedded batch and gives the forward and the
     backward outputs *)
  bidirectional_dynamic_rnn :
    nat → option nat →
    B T rng (T → list (list (list T)) →
             X T (list (list (list T)) * list (list (list T))))
}.

(** ** The two monads *)

Section Monads.
Context {T rng : Type}.

#[export] Instance B_ret : MRet (B T rng) := λ A a _ bs, inr (a, bs).
#[export] Instance B_bind : MBind (B T rng) := λ A C k m sc bs,
  match m sc bs with
  | inl e => inl e
  | inr (a, bs') => k a sc bs'
  end.

Definition raise {A : Type} (e : pyerror) : B T rng A := λ _ _, inl e.

#[export] Instance X_ret : MRet (X T) := λ A a _ st, Some (a, st).
#[export] Instance X_bind : MBind (X T) := λ A C k m feed st,
  match m feed st with
  | None => None
  | Some (a, st') => k a feed st'
  end.

Definition abort {A : Type} : X T A := λ _ _, None.

(** Reading a variable's current value. *)
Definition read_vec (name : string) : X T (list T) := λ _ st,
  match var_value <$> st !! name with
  | Some (Vec v) => Some (v, st)
  | _ => None
  end.

Definition read_mat (name : string) : X T (list (list T)) := λ _ st,
  match var_value <$> st !! name with
  | Some (Mat m) => Some (m, st)
  | _ => None
  end.

(** [tf.assign ref v]: the variable keeps its declaration and takes the new
    value. *)
Definition set_value (v : value T) (var : variable T) : variable T :=
  Variable_ (var_shape var) (var_trainable var) v.

Definition tf_assign (ref : string) (v : value T) : X T unit := λ _ st,
  match st !! ref with
  | Some _ => Some (tt, alter (set_value v) ref st)
  | None => None
  end.

(** Reading a placeholder from the feed dictionary. *)
Definition placeholder (name : string) : X T (value T) := λ feed st,
  match feed !! name with
  | Some v => Some (v, st)
  | None => None
  end.

(** [tf.constant b] for a Python boolean: a tensor whose value is [b] at
    every execution that does not feed the tensor itself. *)
Definition tf_constant (b : bool) : X T bool := mret b.

(** A constant is a feedable tensor: [Session.run] substitutes the value
    its feed dictionary gives for a tensor, if it gives one, for the value
    the graph computes.  [fed] is the entry of the feed dictionary for this
    tensor, [None] when the execution does not feed it. *)
Definition tf_constant_fed (b : bool) (fed : option bool) : X T bool :=
  mret (default b fed).

(** [tf.cond pred true_fn false_fn]: both branches are part of the graph;
    an execution evaluates [pred] and then runs the operations of one
    branch only. *)
Definition tf_cond {A : Type} (pred : X T bool) (true_fn false_fn : X T A) : X T A :=
  b ← pred; if b : bool then true_fn else false_fn.

(** Variable scopes.  A name is prefixed by the names of the enclosing
    scopes; [reuse=True] is inherited by the scopes inside. *)
Definition scoped (prefix name : string) : string :=
  if bool_decide (prefix = "") then name else prefix +:+ "/" +:+ name.

Definition variable_scope {A : Type}
    (name : string) (reuse : option bool) (body : B T rng A) : B T rng A :=
  λ sc bs,
    body (VScope (scoped (vs_name sc) name)
                 (match reuse with Some true => true | _ => vs_reuse sc end)) bs.

(** [t.get_shape().as_list()[i]]. *)
Definition as_list_at (shape : list (option nat)) (i : nat) : B T rng (option nat) :=
  match shape !! i with
  | Some d => mret d
  | None => raise (IndexError "list index out of range")
  end.

(** A requested shape is compatible with a declared one when they have the
    same rank and every known dimension agrees. *)
Definition shape_compatible (shape : list (option nat)) (dims : list nat) : bool :=
  bool_decide (length shape = length dims) &&
  forallb (λ p, match p.1 with None => true | Some n => Nat.eqb n p.2 end)
          (zip shape dims).

Definition fully_defined (shape : list (option nat)) : option (list nat) :=
  mapM (λ d, d) shape.

End Monads.

Section Graph.
Context {T rng : Type} {SC : Scalar T} {LB : Lib T rng}.

Local Abbreviation vec := (list T).
Local Abbreviation mat := (list (list T)).

(** [tf.get_variable name shape initializer trainable] in the current
    variable scope.  Without reuse the variable must be new, its shape must
    be fully known, and it is created with the value the initializer gives
    (the scope's default initializer when none is passed); with reuse it
    must exist with a compatible shape.  The result is the variable's full
    name, by which executions read and assign it. *)
Definition get_variable
    (name : string) (shape : list (option nat))
    (init : option (initializer T rng)) (trainable : bool) : B T rng string :=
  λ sc bs,
    let full := scoped (vs_name sc) name in
    match graph_vars bs !! full with
    | Some var =>
        if vs_reuse sc then
          if shape_compatible shape (var_shape var) then inr (full, bs)
          else inl (ValueError "Trying to share variable, but specified shape and found shape differ")
        else inl (ValueError "Variable already exists, disallowed")
    | None =>
        if vs_reuse sc then
          inl (ValueError "Variable does not exist, or was not created with tf.get_variable()")
        else
          match fully_defined shape with
          | None => inl (ValueError "Shape of a new variable must be fully defined")
          | Some dims =>
              match default default_initializer init dims (np_seed bs) with
              | inl e => inl e
              | inr (v, seed') =>
                  inr (full, BState (<[full := Variable_ dims trainable v]> (graph_vars bs)) seed')
              end
          end
    end.

(** [tf.constant_initializer c], [tf.zeros_initializer ()] and
    [tf.ones_initializer ()], for the ranks the file uses. *)
Definition constant_initializer (c : T) : initializer T rng := λ shape seed,
  match shape with
  | [n] => inr (Vec (full_vec n c), seed)
  | [r; k] => inr (Mat (full_mat r k c), seed)
  | _ => inl (NotModelled "initializer of a rank other than 1 or 2")
  end.
Definition zeros_initializer : initializer T rng := constant_initializer szero.
Definition ones_initializer : initializer T rng := constant_initializer sone.

(** ** NumPy arrays *)

(** [q.reshape shape] for a matrix [q], row-major; NumPy raises when the
    number of elements differs. *)
Fixpoint chunks (n k : nat) (l : vec) : mat :=
  match n with
  | 0 => []
  | S n' => take k l :: chunks n' k (drop k l)
  end.

Definition reshape (q : mat) (shape : list nat) : pyerror + value T :=
  if bool_decide (length (concat q) = foldr Nat.mul 1 shape) then
    match shape with
    | [_] => inr (Vec (concat q))
    | [r; k] => inr (Mat (chunks r k (concat q)))
    | _ => inl (NotModelled "array of a rank other than 1 or 2")
    end
  else inl (ValueError "cannot reshape array").

(** [np.zeros shape]. *)
Definition np_zeros (shape : list nat) : pyerror + mat :=
  match shape with
  | [r; k] => inr (full_mat r k szero)
  | _ => inl (NotModelled "array of a rank other than 2")
  end.

(** [t[:, a:b] = m]: the slice bounds are clamped to the row width, and
    NumPy raises unless [m] has the shape of the slice (broadcasting of
    axes of length one is not modelled: the file assigns blocks of the
    slice's own shape). *)
Definition set_cols (a b : nat) (m t : mat) : pyerror + mat :=
  if bool_decide (length m = length t) &&
     forallb (λ p, Nat.eqb (length p.2) (b `min` length p.1 - a `min` length p.1))
             (zip t m)
  then inr (zip_with (λ r s, take a r ++ s ++ drop (a `max` b) r) t m)
  else inl (ValueError "could not broadcast input array").

(** [orthogonal shape], lines 75-80. *)
Definition orthogonal (shape : list nat) : rng → pyerror + (value T * rng) := λ seed,
  match shape with
  | [] => inl (IndexError "list index out of range")
  | d0 :: rest =>
      let flat_shape := (d0, foldr Nat.mul 1 rest) in
      let '(a, seed') := np_random_normal flat_shape seed in
      let '(u, _, v) := np_linalg_svd a in
      let q := if bool_decide (shape_of u = flat_shape) then u else v in
      match reshape q shape with
      | inl e => inl e
      | inr t => inr (t, seed')
      end
  end.

(** [orthogonal_initializer ()], lines 102-105. *)
Definition orthogonal_initializer : initializer T rng := λ shape seed,
  match orthogonal shape seed with
  | inr (Mat q, seed') => inr (Mat (mmap scast q), seed')
  | inr (Vec q, seed') => inr (Vec (map scast q), seed')
  | inr (other, seed') => inr (other, seed')
  | inl e => inl e
  end.

(** One call [orthogonal [size, size]] whose result is used as a block. *)
Definition orthogonal_block (size : nat) (seed : rng) : pyerror + (mat * rng) :=
  match orthogonal [size; size] seed with
  | inr (Mat q, seed') => inr (q, seed')
  | inr (_, _) => inl (ValueError "could not broadcast input array")
  | inl e => inl e
  end.

(** [bn_lstm_identity_initializer scale], lines 83-99: the closure
    [_initializer shape]. *)
Definition bn_lstm_identity_initializer (scale : T) : initializer T rng := λ shape seed,
  match shape with
  | [] => inl (IndexError "list index out of range")
  | size :: _ =>
      match np_zeros shape with
      | inl e => inl e
      | inr t =>
      match set_cols size (size * 2) (mmap (λ e, smul e scale) (identity size)) t with
      | inl e => inl e
      | inr t =>
      match orthogonal_block size seed with
      | inl e => inl e
      | inr (q1, seed) =>
      match set_cols 0 size q1 t with
      | inl e => inl e
      | inr t =>
      match orthogonal_block size seed with
      | inl e => inl e
      | inr (q2, seed) =>
      match set_cols (size * 2) (size * 3) q2 t with
      | inl e => inl e
      | inr t =>
      match orthogonal_block size seed with
      | inl e => inl e
      | inr (q3, seed) =>
      match set_cols (size * 3) (foldr Nat.mul 1 (tail shape)) q3 t with
      | inl e => inl e
      | inr t => inr (Mat (mmap scast t), seed)
      end end end end end end end end
  end.

(** ** Batch normalisation, lines 108-134 *)

Definition default_epsilon : T := sconst (1 # 1000).
Definition default_decay : T := sconst (999 # 1000).

(** The nested function [batch_statistics]; [scale], [offset], [pop_mean]
    and [pop_var] are the variables the enclosing call obtained.  The two
    assignments are control dependencies of the normalisation, so they run
    before it does. *)
Definition batch_statistics
    (size : nat) (x : mat) (scale offset pop_mean pop_var : string)
    (epsilon decay : T) : X T mat :=
  let '(batch_mean, batch_var) := moments size x in
  pm ← read_vec pop_mean;
  _ ← tf_assign pop_mean
        (Vec (vadd (vscale pm decay) (vscale batch_mean (ssub sone decay))));
  pv ← read_vec pop_var;
  _ ← tf_assign pop_var
        (Vec (vadd (vscale pv decay) (vscale batch_var (ssub sone decay))));
  off ← read_vec offset;
  sc ← read_vec scale;
  mret (batch_normalization x batch_mean batch_var off sc epsilon).

(** The nested function [population_statistics]. *)
Definition population_statistics
    (x : mat) (scale offset pop_mean pop_var : string) (epsilon : T) : X T mat :=
  pm ← read_vec pop_mean;
  pv ← read_vec pop_var;
  off ← read_vec offset;
  sc ← read_vec scale;
  mret (batch_normalization x pm pv off sc epsilon).

(** [batch_norm x name_scope is_training epsilon decay].  The symbolic
    tensor [x] is its static shape while the graph is built and its value
    when the graph runs; the result is the operation to run on that value.
    A variable can only be created with a known size; where the size is
    unknown (the variables are then reused ones) the features are counted
    on the value. *)
Definition batch_norm
    (x : list (option nat)) (name_scope : string) (is_training : bool)
    (epsilon decay : T) : B T rng (mat → X T mat) :=
  variable_scope name_scope None (
    let training := tf_constant is_training in
    size ← as_list_at x 1;
    scale ← get_variable "scale" [size] (Some (constant_initializer (sconst (1 # 10)))) true;
    offset ← get_variable "offset" [size] None true;
    pop_mean ← get_variable "pop_mean" [size] (Some zeros_initializer) false;
    pop_var ← get_variable "pop_var" [size] (Some ones_initializer) false;
    mret (λ xv,
      tf_cond training
        (batch_statistics (default (shape_of xv).2 size) xv scale offset pop_mean pop_var
           epsilon decay)
        (population_statistics xv scale offset pop_mean pop_var epsilon))).

(** [batch_norm] again, lines 113-134, with the tensor [training] of line
    114 as the feedable tensor it is: the constructed operation takes what
    the execution's feed dictionary holds for [training].  [batch_norm]
    above is this operation in the executions that do not feed [training]. *)
Definition batch_norm_graph
    (x : list (option nat)) (name_scope : string) (is_training : bool)
    (epsilon decay : T) : B T rng (option bool → mat → X T mat) :=
  variable_scope name_scope None (
    let training := tf_constant_fed is_training in
    size ← as_list_at x 1;
    scale ← get_variable "scale" [size] (Some (constant_initializer (sconst (1 # 10)))) true;
    offset ← get_variable "offset" [size] None true;
    pop_mean ← get_variable "pop_mean" [size] (Some zeros_initializer) false;
    pop_var ← get_variable "pop_var" [size] (Some ones_initializer) false;
    mret (λ fed xv,
      tf_cond (training fed)
        (batch_statistics (default (shape_of xv).2 size) xv scale offset pop_mean pop_var
           epsilon decay)
        (population_statistics xv scale offset pop_mean pop_var epsilon))).

(** ** BatchNormLSTMCell, lines 13-72 *)

Record BatchNormLSTMCell : Type := Cell {
  _num_units : nat;
  _is_training : bool;
  _forget_bias : T;
  _activation : T → T;     (* applied to every entry of a tensor *)
  _reuse : option bool
}.

(** [BatchNormLSTMCell(num_units)] with the defaults of [__init__]. *)
Definition BatchNormLSTMCell_default (num_units : nat) : BatchNormLSTMCell :=
  Cell num_units false (sconst 1) stanh None.



(** Python's [scope or type(self).__name__]. *)
Definition scope_or (scope : option string) (name : string) : string :=
  match scope with
  | Some s => if bool_decide (s = "") then name else s
  | None => name
  end.

(** The operations [__call__] constructs from line 56 on, run on the values
    of [inputs] and of [state]; [bn_xh], [bn_hh] and [bn_c] are the three
    batch-normalisation sites. *)
Definition call_run
    (self : BatchNormLSTMCell) (W_xh W_hh bias : string)
    (bn_xh bn_hh bn_c : mat → X T mat)
    (inputs : mat) (state : mat * mat) : X T (mat * (mat * mat)) :=
  let '(c, h) := state in
  w_xh ← read_mat W_xh;
  w_hh ← read_mat W_hh;
  b ← read_vec bias;
  let xh := matmul (4 * _num_units self) inputs w_xh in
  let hh := matmul (4 * _num_units self) h w_hh in
  bn_xh ← bn_xh xh;
  bn_hh ← bn_hh hh;
  let hidden := madd_row (madd bn_xh bn_hh) b in
  match array_split (4 * _num_units self) 4 hidden with
  | [i; j; f; o] =>
      let new_c :=
        madd (mmul c (mmap ssigmoid (madd_scalar f (_forget_bias self))))
             (mmul (mmap ssigmoid i) (mmap (_activation self) j)) in
      bn_new_c ← bn_c new_c;
      let new_h := mmul (mmap (_activation self) bn_new_c) (mmap ssigmoid o) in
      let new_state := (new_c, new_h) in
      mret (new_h, new_state)
  | _ => abort
  end.

(** [__call__ self inputs state scope], lines 44-72.  [inputs] is the
    static shape of the input tensor; the state has the static shape
    [state_size] declares.  The products have the static width of their
    right factor, and [new_c] that of a slice of [hidden]. *)
Definition call
    (self : BatchNormLSTMCell) (inputs : list (option nat)) (scope : option string)
    : B T rng (mat → mat * mat → X T (mat * (mat * mat))) :=
  variable_scope (scope_or scope "BatchNormLSTMCell") (_reuse self) (
    input_size ← as_list_at inputs 1;
    W_xh ← get_variable "W_xh" [input_size; Some (4 * _num_units self)]
             (Some orthogonal_initializer) true;
    W_hh ← get_variable "W_hh" [Some (_num_units self); Some (4 * _num_units self)]
             (Some (bn_lstm_identity_initializer (sconst (95 # 100)))) true;
    bias ← get_variable "bias" [Some (4 * _num_units self)] None true;
    bn_xh ← batch_norm [head inputs ≫= (λ d, d); Some (4 * _num_units self)] "xh"
              (_is_training self) default_epsilon default_decay;
    bn_hh ← batch_norm [head inputs ≫= (λ d, d); Some (4 * _num_units self)] "hh"
              (_is_training self) default_epsilon default_decay;
    bn_c ← batch_norm [head inputs ≫= (λ d, d); Some (_num_units self)] "c"
              (_is_training self) default_epsilon default_decay;
    mret (call_run self W_xh W_hh bias bn_xh bn_hh bn_c)).

(** ** TextRNN, lines 137-201 *)

(** [tf.Variable initial_value name trainable]: always creates a variable,
    under the first free name among [name], [name_1], [name_2], ... *)
Definition unique_name (g : gmap string (variable T)) (name : string) : string :=
  default name
    (find (λ s, match g !! s with None => true | Some _ => false end)
          (name :: map (λ i : nat, name +:+ "_" +:+ pretty i) (seq 1 (size g)))).

Definition value_shape (v : value T) : list nat :=
  match v with
  | Vec v => [length v]
  | Mat m => [(shape_of m).1; (shape_of m).2]
  | Scal _ => []
  | Ints m => [length m; match m with [] => 0 | r :: _ => length r end]
  | Flag _ => []
  end.

Definition tf_Variable (initial_value : value T) (name : string) (trainable : bool)
    : B T rng string :=
  λ _ bs,
    let full := unique_name (graph_vars bs) name in
    inr (full, BState (<[full := Variable_ (value_shape initial_value) trainable initial_value]>
                         (graph_vars bs)) (np_seed bs)).

(** Drawing an initial value from the random source. *)
Definition draw {A : Type} (f : rng → A * rng) : B T rng A :=
  λ _ bs, let '(a, seed') := f (np_seed bs) in inr (a, BState (graph_vars bs) seed').

(** Placeholders of a declared width: feeding a value of another kind or
    width is refused. *)
Definition placeholder_ints (name : string) (width : nat) : X T (list (list nat)) :=
  v ← placeholder name;
  match v with
  | Ints m => if forallb (λ r, Nat.eqb (length r) width) m then mret m else abort
  | _ => abort
  end.

Definition placeholder_mat (name : string) (width : nat) : X T mat :=
  v ← placeholder name;
  match v with
  | Mat m => if forallb (λ r, Nat.eqb (length r) width) m then mret m else abort
  | _ => abort
  end.

Definition placeholder_scalar (name : string) : X T T :=
  v ← placeholder name;
  match v with
  | Scal r => mret r
  | _ => abort
  end.

(** [tf.nn.embedding_lookup params ids] on the CPU: an index outside the
    table fails the execution. *)
Definition embedding_lookup (params : mat) (ids : list (list nat)) : X T (list mat) :=
  match mapM (mapM (λ i, params !! i)) ids with
  | Some e => mret e
  | None => abort
  end.

(** [tf.nn.xw_plus_b x weights biases] for [weights] of [n] columns. *)
Definition xw_plus_b (n : nat) (x weights : mat) (biases : vec) : mat :=
  madd_row (matmul n x weights) biases.

(** [tf.nn.sigmoid_cross_entropy_with_logits]: entry by entry.  The static
    shapes of [input_y] and of the logits agree ([None] by [num_classes]),
    so the construction accepts them; at execution the entrywise operations
    broadcast the labels against the logits. *)
Definition sigmoid_cross_entropy_with_logits (labels logits : mat) : X T mat :=
  match broadcast2 sxent labels logits with
  | Some losses => mret losses
  | None => abort
  end.

(** The attributes of the constructed object the claims are about.
    [logits_and_loss] is one execution fetching [self.logits] and
    [self.loss] together. *)
Record TextRNN : Type := {
  input_x : string;
  input_y : string;
  dropout_keep_prob : string;
  global_step : string;
  W : X T mat;
  logits_and_loss : X T (mat * T)
}.

(** Reading an attribute of [self] that was never assigned. *)
Definition getattr {A : Type} (attr : option A) (name : string) : B T rng A :=
  match attr with
  | Some a => mret a
  | None => raise (AttributeError ("'TextRNN' object has no attribute '" +:+ name +:+ "'"))
  end.

(** What one execution of the operations built from line 170 on computes. *)
Definition TextRNN_run
    (sequence_length num_classes hidden_size : nat) (l2_reg_lambda : T)
    (self_W : X T mat)
    (birnn : T → list mat → X T (list mat * list mat))
    (W b : string) : X T (mat * T) :=
  x ← placeholder_ints "input_x" sequence_length;
  y ← placeholder_mat "input_y" num_classes;
  keep ← placeholder_scalar "dropout_keep_prob";
  let l2_loss := sconst 0 in
  w ← self_W;
  embedded_chars ← embedding_lookup w x;
  outputs ← birnn keep embedded_chars;
  let output_rnn := concat2 outputs.1 outputs.2 in
  let output_rnn_last := reduce_mean_time (hidden_size * 2) output_rnn in
  Wv ← read_mat W;
  bv ← read_vec b;
  let l2_loss := sadd l2_loss (l2_loss_mat Wv) in
  let l2_loss := sadd l2_loss (l2_loss_vec bv) in
  let logits := xw_plus_b num_classes output_rnn_last Wv bv in
  losses ← sigmoid_cross_entropy_with_logits y logits;
  let losses := map ssum losses in
  let loss := sadd (reduce_mean losses) (smul l2_reg_lambda l2_loss) in
  mret (logits, loss).

(** [TextRNN.__init__], lines 143-201.  [self_W] is the attribute [self.W]:
    [None] until an assignment to it runs. *)
Definition TextRNN_init
    (sequence_length num_classes vocab_size hidden_size embedding_size : nat)
    (embedding_type : Z) (l2_reg_lambda : T) (pretrained_embedding : option mat)
    : B T rng TextRNN :=
  global_step ← tf_Variable (Scal (sconst 0)) "global_Step" false;
  let self_W : option (X T mat * option nat) := None in
  self_W ←
    match pretrained_embedding with
    | None =>
        init ← draw (tf_random_uniform (vocab_size, embedding_size)
                       (ssub szero (sconst 1)) (sconst 1));
        v ← tf_Variable (Mat init) "embedding/W" true;
        mret (Some (read_mat v, Some embedding_size))
    | Some pretrained =>
        self_W ←
          (if Z.eqb embedding_type 0 then
             mret (Some (mret (mmap scast pretrained) : X T mat,
                         Some (shape_of pretrained).2))
           else mret self_W);
        (if Z.eqb embedding_type 1 then
           v ← tf_Variable (Mat pretrained) "embedding/W" true;
           mret (Some (m ← read_mat v; mret (mmap scast m),
                       Some (shape_of pretrained).2))
         else mret self_W)
    end;
  self_W ← getattr self_W "W";
  birnn ← bidirectional_dynamic_rnn hidden_size self_W.2;
  W ← get_variable "W" [Some (hidden_size * 2); Some num_classes]
        (Some xavier_initializer) true;
  b ← tf_Variable (Vec (full_vec num_classes (sconst (1 # 10)))) "output/b" true;
  mret {| input_x := "input_x";
          input_y := "input_y";
          dropout_keep_prob := "dropout_keep_prob";
          global_step := global_step;
          W := self_W.1;
          logits_and_loss :=
            TextRNN_run sequence_length num_classes hidden_size l2_reg_lambda
                        self_W.1 birnn W b |}.

End Graph.

(** ** A computable instance

    Exact rational arithmetic, every result reduced to lowest terms so that
    equal numbers are equal terms.  The functions that are not rational
    (reciprocal square root, sigmoid, tanh, the cross-entropy term) have
    rational stand-ins of the same monotonicity: the theorems below hold
    for every instance, and the examples only need one that computes.  The
    random source is the sequence of the numbers it will hand out. *)

Module Rational.

Definition qabs (x : Q) : Q := Qred (Qabs x).

#[export] Instance scalar : Scalar Q := {|
  szero := 0%Q;
  sone := 1%Q;
  sadd := λ a b, Qred (a + b)%Q;
  ssub := λ a b, Qred (a - b)%Q;
  smul := λ a b, Qred (a * b)%Q;
  sdiv := λ a b, Qred (a / b)%Q;
  srsqrt := λ x, Qred (2 / (1 + qabs x))%Q;
  ssigmoid := λ x, Qred ((1 + x / (1 + qabs x)) / 2)%Q;
  stanh := λ x, Qred (x / (1 + qabs x))%Q;
  sxent := λ z x, Qred (Qmax x 0 - x * z + 1 / (1 + qabs x))%Q;
  sconst := Qred;
  sofnat := λ n, inject_Z (Z.of_nat n);
  scast := Qred
|}.

(** The next [n] numbers of the source (zeros once it is exhausted). *)
Definition draws (n : nat) (seed : list Q) : list Q * list Q :=
  (take n (seed ++ replicate n 0%Q), drop n seed).

Definition draw_value (shape : list nat) (seed : list Q) : pyerror + (value Q * list Q) :=
  match shape with
  | [n] => let '(v, seed') := draws n seed in inr (Vec v, seed')
  | [r; k] => let '(v, seed') := draws (r * k) seed in inr (Mat (chunks r k v), seed')
  | _ => inl (NotModelled "initializer of a rank other than 1 or 2")
  end.

#[export] Instance lib : Lib Q (list Q) := {|
  np_random_normal := λ shape seed,
    let '(v, seed') := draws (shape.1 * shape.2) seed in
    (chunks shape.1 shape.2 v, seed');
  (* the factors of the rectangular identity of the argument's shape *)
  np_linalg_svd := λ a,
    let m := (shape_of a).1 in
    let n := (shape_of a).2 in
    (map (take (m `min` n)) (identity m),
     replicate (m `min` n) 1%Q,
     take (m `min` n) (identity n));
  default_initializer := draw_value;
  xavier_initializer := draw_value;
  tf_random_uniform := λ shape _ _ seed,
    let '(v, seed') := draws (shape.1 * shape.2) seed in
    (chunks shape.1 shape.2 v, seed');
  (* every step of either direction outputs its input's sum, scaled *)
  bidirectional_dynamic_rnn := λ hidden_size depth,
    match depth with
    | None => raise (ValueError "Input size (depth of inputs) must be accessible via shape inference")
    | Some _ =>
        mret (λ keep embedded,
          mret (map (map (λ r, replicate hidden_size (smul keep (ssum r)))) embedded,
                map (map (λ r, replicate hidden_size (ssub (ssum r) keep))) embedded))
    end
|}.

(** The root variable scope of a fresh graph. *)
Definition root : vscope := VScope "" false.

Definition fresh (seed : list Q) : bstate Q (list Q) := BState ∅ seed.

End Rational.

(** ** The real numbers

    An instance with an order, on which the statements about signs and
    bounds are exercised: the cross-entropy term is TensorFlow's
    [max x 0 - x * z + log (1 + exp (- |x|))].  It is exact and total
    (division by zero and the reciprocal root of a negative number are 0
    here, not NaN), so nothing is proved of it alone: those statements are
    proved from [order_laws], for every arithmetic that satisfies them. *)

Module Real.

#[export] Instance scalar : Scalar R := {|
  szero := 0%R;
  sone := 1%R;
  sadd := Rplus;
  ssub := Rminus;
  smul := Rmult;
  sdiv := Rdiv;
  srsqrt := λ x, (/ sqrt x)%R;
  ssigmoid := λ x, (/ (1 + exp (- x)))%R;
  stanh := tanh;
  sxent := λ z x, (Rmax x 0 - x * z + ln (1 + exp (- Rabs x)))%R;
  sconst := Q2R;
  sofnat := INR;
  scast := λ x, x
|}.

(** A library for the examples: the random source is the sequence of the
    numbers it will hand out, and the recurrence is a stand-in. *)
Definition draws (n : nat) (seed : list R) : list R * list R :=
  (take n (seed ++ replicate n 0%R), drop n seed).

Definition draw_value (shape : list nat) (seed : list R) : pyerror + (value R * list R) :=
  match shape with
  | [n] => let '(v, seed') := draws n seed in inr (Vec v, seed')
  | [r; k] => let '(v, seed') := draws (r * k) seed in inr (Mat (chunks r k v), seed')
  | _ => inl (NotModelled "initializer of a rank other than 1 or 2")
  end.

#[export] Instance lib : Lib R (list R) := {|
  np_random_normal := λ shape seed,
    let '(v, seed') := draws (shape.1 * shape.2) seed in
    (chunks shape.1 shape.2 v, seed');
  np_linalg_svd := λ a,
    let m := (shape_of a).1 in
    let n := (shape_of a).2 in
    (map (take (m `min` n)) (identity m),
     replicate (m `min` n) 1%R,
     take (m `min` n) (identity n));
  default_initializer := draw_value;
  xavier_initializer := draw_value;
  tf_random_uniform := λ shape _ _ seed,
    let '(v, seed') := draws (shape.1 * shape.2) seed in
    (chunks shape.1 shape.2 v, seed');
  bidirectional_dynamic_rnn := λ hidden_size depth,
    match depth with
    | None => raise (ValueError "Input size (depth of inputs) must be accessible via shape inference")
    | Some _ =>
        mret (λ keep embedded,
          mret (map (map (λ r, replicate hidden_size (smul keep (ssum r)))) embedded,
                map (map (λ r, replicate hidden_size (ssub (ssum r) keep))) embedded))
    end
|}.

Definition root : vscope := VScope "" false.

Definition fresh (seed : list R) : bstate R (list R) := BState ∅ seed.

End Real.
(** ** Vocabulary of the statements *)

Section Vocabulary.
Context {T : Type} {SC : Scalar T}.

Local Abbreviation vec := (list T).
Local Abbreviation mat := (list (list T)).

(** The current value of a variable of the store. *)
Definition holds (st : gmap string (variable T)) (name : string) (v : value T) : Prop :=
  var_value <$> st !! name = Some v.

(** The four per-feature vectors of one batch-normalisation site. *)
Record bn_params : Type := BnParams {
  bn_scale : vec;
  bn_offset : vec;
  bn_pop_mean : vec;
  bn_pop_var : vec
}.

(** The store holds the vectors [p] under the names of the site [site]. *)
Definition bn_site (st : gmap string (variable T)) (site : string) (p : bn_params) : Prop :=
  holds st (scoped site "scale") (Vec (bn_scale p)) ∧
  holds st (scoped site "offset") (Vec (bn_offset p)) ∧
  holds st (scoped site "pop_mean") (Vec (bn_pop_mean p)) ∧
  holds st (scoped site "pop_var") (Vec (bn_pop_var p)).

(** Two sites none of whose names coincide. *)
Definition sites_apart (site site' : string) : Prop :=
  ∀ a a', scoped site a ≠ scoped site' a'.

(** The moving average [pop * decay + batch_stat * (1 - decay)]. *)
Definition moving_average (pop batch_stat : vec) (decay : T) : vec :=
  vadd (vscale pop decay) (vscale batch_stat (ssub sone decay)).

(** Normalisation in training mode: by the statistics of the batch. *)
Definition bn_training (size : nat) (p : bn_params) (epsilon : T) (x : mat) : mat :=
  batch_normalization x (moments size x).1 (moments size x).2
    (bn_offset p) (bn_scale p) epsilon.

(** Normalisation in inference mode: by the stored population statistics. *)
Definition bn_inference (p : bn_params) (epsilon : T) (x : mat) : mat :=
  batch_normalization x (bn_pop_mean p) (bn_pop_var p)
    (bn_offset p) (bn_scale p) epsilon.

(** The store after a training-mode execution at the site. *)
Definition bn_trained_store
    (size : nat) (site : string) (p : bn_params) (decay : T) (x : mat)
    (st : gmap string (variable T)) : gmap string (variable T) :=
  alter (set_value (Vec (moving_average (bn_pop_var p) (moments size x).2 decay)))
        (scoped site "pop_var")
    (alter (set_value (Vec (moving_average (bn_pop_mean p) (moments size x).1 decay)))
           (scoped site "pop_mean") st).

(** The site in either mode. *)
Definition bn_apply (training : bool) (size : nat) (p : bn_params) (epsilon : T)
    (x : mat) : mat :=
  if training then bn_training size p epsilon x else bn_inference p epsilon x.

Definition bn_store (training : bool) (size : nat) (site : string) (p : bn_params)
    (decay : T) (x : mat) (st : gmap string (variable T)) : gmap string (variable T) :=
  if training then bn_trained_store size site p decay x st else st.

(** The operation a call of [batch_norm] constructs at the site [site] for
    a tensor of static width [size]. *)
Definition site_op (training : bool) (size : option nat) (site : string)
    (epsilon decay : T) : mat → X T mat :=
  λ xv,
    tf_cond (tf_constant training)
      (batch_statistics (default (shape_of xv).2 size) xv
         (scoped site "scale") (scoped site "offset")
         (scoped site "pop_mean") (scoped site "pop_var") epsilon decay)
      (population_statistics xv
         (scoped site "scale") (scoped site "offset")
         (scoped site "pop_mean") (scoped site "pop_var") epsilon).

(** The vectors of a site have the size of its features. *)
Definition bn_sized (n : nat) (p : bn_params) : Prop :=
  length (bn_scale p) = n ∧ length (bn_offset p) = n ∧
  length (bn_pop_mean p) = n ∧ length (bn_pop_var p) = n.

(** *** The recurrence of the cell, as the specification writes it *)

(** The parameters of a cell: the two weight matrices, the bias, and the
    three batch-normalisation sites. *)
Record cell_params : Type := CellParams {
  p_W_xh : mat;
  p_W_hh : mat;
  p_bias : vec;
  p_xh : bn_params;
  p_hh : bn_params;
  p_c : bn_params
}.

(** Slice [k] of width [n] of every row. *)
Definition slice (n k : nat) (hidden : mat) : mat :=
  map (λ r, take n (drop (k * n) r)) hidden.

(** The matrix whose rows are the rows of four matrices laid side by side. *)
Definition side_by_side (i j f o : mat) : mat :=
  zip_with (λ a b, a ++ b) i
    (zip_with (λ a b, a ++ b) j (zip_with (λ a b, a ++ b) f o)).

(** Under [training] the normalisation [BN] is by batch statistics,
    otherwise by population statistics; [sigma] is the logistic sigmoid and
    [phi] the activation. *)
Section Recurrence.
Variables (n : nat) (training : bool) (forget_bias : T) (phi : T → T).
Variables (epsilon : T) (w : cell_params).
Variables (x c h : mat).

(** [hidden = BN (x · W_xh) + BN (h · W_hh) + bias] *)
Definition lstm_hidden : mat :=
  madd_row
    (madd (bn_apply training (4 * n) (p_xh w) epsilon (matmul (4 * n) x (p_W_xh w)))
          (bn_apply training (4 * n) (p_hh w) epsilon (matmul (4 * n) h (p_W_hh w))))
    (p_bias w).

(** [(i, j, f, o)]: the four consecutive slices of [hidden]. *)
Definition lstm_i : mat := slice n 0 lstm_hidden.
Definition lstm_j : mat := slice n 1 lstm_hidden.
Definition lstm_f : mat := slice n 2 lstm_hidden.
Definition lstm_o : mat := slice n 3 lstm_hidden.

(** [new_c = c · sigma (f + forget_bias) + sigma i · phi j] *)
Definition lstm_new_c : mat :=
  madd (mmul c (mmap ssigmoid (madd_scalar lstm_f forget_bias)))
       (mmul (mmap ssigmoid lstm_i) (mmap phi lstm_j)).

(** [new_h = phi (BN new_c) · sigma o] *)
Definition lstm_new_h : mat :=
  mmul (mmap phi (bn_apply training n (p_c w) epsilon lstm_new_c))
       (mmap ssigmoid lstm_o).

End Recurrence.

(** The store holds the parameters [w] under the names of the cell scope. *)
Definition cell_store (st : gmap string (variable T)) (scope : string) (w : cell_params)
    : Prop :=
  holds st (scoped scope "W_xh") (Mat (p_W_xh w)) ∧
  holds st (scoped scope "W_hh") (Mat (p_W_hh w)) ∧
  holds st (scoped scope "bias") (Vec (p_bias w)) ∧
  bn_site st (scoped scope "xh") (p_xh w) ∧
  bn_site st (scoped scope "hh") (p_hh w) ∧
  bn_site st (scoped scope "c") (p_c w).

(** The store after one step: the three sites have executed, in the order
    of the source. *)
Definition cell_store_after
    (n : nat) (training : bool) (forget_bias : T) (phi : T → T) (epsilon decay : T)
    (scope : string) (w : cell_params) (x c h : mat)
    (st : gmap string (variable T)) : gmap string (variable T) :=
  bn_store training n (scoped scope "c") (p_c w) decay
    (lstm_new_c n training forget_bias phi epsilon w x c h)
    (bn_store training (4 * n) (scoped scope "hh") (p_hh w) decay
       (matmul (4 * n) h (p_W_hh w))
       (bn_store training (4 * n) (scoped scope "xh") (p_xh w) decay
          (matmul (4 * n) x (p_W_xh w)) st)).

(** The graph has a variable of that name whose shape a request for
    [shape] is compatible with. *)
Definition declared (g : gmap string (variable T)) (name : string)
    (shape : list (option nat)) : Prop :=
  ∃ var, g !! name = Some var ∧ shape_compatible shape (var_shape var) = true.

(** The variables of a site, all declared with the site's size. *)
Definition site_declared (g : gmap string (variable T)) (site : string)
    (size : option nat) : Prop :=
  declared g (scoped site "scale") [size] ∧
  declared g (scoped site "offset") [size] ∧
  declared g (scoped site "pop_mean") [size] ∧
  declared g (scoped site "pop_var") [size].

(** The variables of a cell for inputs of static width [input_size]. *)
Definition cell_declared (g : gmap string (variable T)) (cs : string)
    (input_size : option nat) (n : nat) : Prop :=
  declared g (scoped cs "W_xh") [input_size; Some (4 * n)] ∧
  declared g (scoped cs "W_hh") [Some n; Some (4 * n)] ∧
  declared g (scoped cs "bias") [Some (4 * n)] ∧
  site_declared g (scoped cs "xh") (Some (4 * n)) ∧
  site_declared g (scoped cs "hh") (Some (4 * n)) ∧
  site_declared g (scoped cs "c") (Some n).

(** The same cell with another reuse policy. *)
Definition with_reuse (self : @BatchNormLSTMCell T) (reuse : option bool)
    : @BatchNormLSTMCell T :=
  Cell (_num_units self) (_is_training self) (_forget_bias self) (_activation self) reuse.

(** The names of the running estimates of the three sites of a cell. *)
Definition running_estimates (scope : string) : list string :=
  [scoped (scoped scope "xh") "pop_mean"; scoped (scoped scope "xh") "pop_var";
   scoped (scoped scope "hh") "pop_mean"; scoped (scoped scope "hh") "pop_var";
   scoped (scoped scope "c") "pop_mean"; scoped (scoped scope "c") "pop_var"].

(** Reading the parameters of a cell off a store. *)
Definition vec_of (st : gmap string (variable T)) (name : string) : vec :=
  match var_value <$> st !! name with
  | Some (Vec v) => v
  | _ => []
  end.

Definition mat_of (st : gmap string (variable T)) (name : string) : mat :=
  match var_value <$> st !! name with
  | Some (Mat m) => m
  | _ => []
  end.

Definition bn_params_of (st : gmap string (variable T)) (site : string) : bn_params :=
  BnParams (vec_of st (scoped site "scale")) (vec_of st (scoped site "offset"))
           (vec_of st (scoped site "pop_mean")) (vec_of st (scoped site "pop_var")).

Definition cell_params_of (st : gmap string (variable T)) (scope : string) : cell_params :=
  CellParams (mat_of st (scoped scope "W_xh")) (mat_of st (scoped scope "W_hh"))
             (vec_of st (scoped scope "bias"))
             (bn_params_of st (scoped scope "xh")) (bn_params_of st (scoped scope "hh"))
             (bn_params_of st (scoped scope "c")).

End Vocabulary.

(** ** What the statements assume of NumPy *)

Section Library_contracts.
Context {T rng : Type} {SC : Scalar T} {LB : Lib T rng}.

(** A matrix of [r] rows and [k] columns. *)
Definition is_matrix (r k : nat) (m : list (list T)) : Prop :=
  length m = r ∧ rows_of_width k m.

(** [np.random.normal] returns an array of the requested shape. *)
Definition normal_has_shape : Prop :=
  ∀ r k seed, is_matrix r k (np_random_normal (r, k) seed).1.

(** [np.linalg.svd a full_matrices=False] of an [r] by [k] array returns
    [u] of shape [(r, min r k)] and [v] of shape [(min r k, k)]. *)
Definition svd_has_shapes : Prop :=
  ∀ r k a, is_matrix r k a →
    is_matrix r (r `min` k) (np_linalg_svd a).1.1 ∧
    is_matrix (r `min` k) k (np_linalg_svd a).2.

(** The [u] factor of every square array has the property [P] (for
    instance: its columns are orthonormal to within rounding). *)
Definition svd_u_satisfies (P : list (list T) → Prop) : Prop :=
  ∀ n a, is_matrix n n a → P (np_linalg_svd a).1.1.

End Library_contracts.

(** ** Declared sizes *)

Section Sizes.
Context {T : Type} {SC : Scalar T}.

(** The parameters of a cell of [n] units for inputs of width [k] have the
    shapes [__call__] and [batch_norm] declare for them. *)
Definition cell_sized (k n : nat) (w : @cell_params T) : Prop :=
  is_matrix k (4 * n) (p_W_xh w) ∧ is_matrix n (4 * n) (p_W_hh w) ∧
  length (p_bias w) = 4 * n ∧
  bn_sized (4 * n) (p_xh w) ∧ bn_sized (4 * n) (p_hh w) ∧ bn_sized n (p_c w).

(** The value [x] of a tensor of static shape [shape]: a matrix of rows of
    [k] entries whose two dimensions agree with the ones [shape] knows. *)
Definition has_static_shape (shape : list (option nat)) (k : nat) (x : list (list T))
    : Prop :=
  shape_compatible shape [length x; k] = true ∧ rows_of_width k x.

End Sizes.

(** ** What the statements about signs and bounds assume of the arithmetic

    [sle] is the comparison [<=] of the number format.  No operation is
    assumed exact, associative or total.  In floating-point arithmetic a
    comparison with a NaN is false, so [sle x x] says that [x] is not a NaN
    (it may be infinite), and the laws are written to hold there, with NaN,
    infinities, signed zeros and rounding: an operation on a NaN gives a
    NaN; a NaN can come from operands that are numbers ([inf - inf],
    [0 * inf], [0 / 0]), so the sign of a product or of a quotient is only
    stated of a result that is a number; a quotient is only taken by a
    count or by a positive literal, as in the source; and the ranges of the
    sigmoid and of tanh include their bounds, which rounding reaches. *)

Section Order.
Context {T : Type} {SC : Scalar T}.
Variable sle : T → T → Prop.

Definition is_number (x : T) : Prop := sle x x.
Definition nonneg (x : T) : Prop := sle szero x.
Definition in_unit (x : T) : Prop := sle szero x ∧ sle x sone.
Definition in_sym_unit (x : T) : Prop := sle (sconst (-1)) x ∧ sle x sone.

(** A value that is a NaN or is not negative. *)
Definition nonneg_or_nan (x : T) : Prop := is_number x → nonneg x.

(** A value that is a NaN or lies between -1 and 1. *)
Definition in_sym_unit_or_nan (x : T) : Prop := is_number x → in_sym_unit x.

Record order_laws : Prop := OrderLaws {
  (* constants and counts *)
  zero_nonneg : nonneg szero;
  const_nonneg : ∀ q, (0 <= q)%Q → nonneg (sconst q);
  const_unit : ∀ q, (0 <= q)%Q → (q <= 1)%Q → in_unit (sconst q);
  count_nonneg : ∀ n, nonneg (sofnat n);
  (* an operation with a NaN operand gives a NaN *)
  add_number : ∀ a b, is_number (sadd a b) → is_number a ∧ is_number b;
  mul_number : ∀ a b, is_number (smul a b) → is_number a ∧ is_number b;
  div_number : ∀ a b, is_number (sdiv a b) → is_number a ∧ is_number b;
  (* signs *)
  add_nonneg : ∀ a b, nonneg a → nonneg b → nonneg (sadd a b);
  mul_nonneg : ∀ a b, nonneg a → nonneg b → nonneg_or_nan (smul a b);
  square_nonneg : ∀ a, nonneg_or_nan (smul a a);
  div_count_nonneg : ∀ a n, nonneg a → nonneg_or_nan (sdiv a (sofnat n));
  div_const_nonneg : ∀ a q, (0 < q)%Q → nonneg a → nonneg_or_nan (sdiv a (sconst q));
  complement_nonneg : ∀ d, in_unit d → nonneg (ssub sone d);
  (* the cross-entropy term of a label between 0 and 1 *)
  xent_nonneg : ∀ z x, in_unit z → nonneg_or_nan (sxent z x);
  (* ranges of the sigmoid and of tanh, and of their product *)
  sigmoid_range : ∀ x, is_number (ssigmoid x) → in_unit (ssigmoid x);
  tanh_range : ∀ x, is_number (stanh x) → in_sym_unit (stanh x);
  mul_range : ∀ a b, in_sym_unit a → in_unit b → in_sym_unit (smul a b)
}.

End Order.
(** ** Concrete graphs for the examples *)

Module Examples.
Import Rational.

(** The outcome of the random source: the next numbers it hands out. *)
Definition seed : list Q := [1 # 2; -1 # 4].

(** A batch of two examples with two features each, and its static shape. *)
Definition x_shape : list (option nat) := [None; Some 2].
Definition batch : list (list Q) := [[1; 2]; [3; 6]]%Q.

(** [batch_norm x "bn" is_training] called once in a fresh graph. *)
Definition built (is_training : bool)
    : pyerror + ((list (list Q) → X Q (list (list Q))) * bstate Q (list Q)) :=
  batch_norm x_shape "bn" is_training default_epsilon default_decay root (fresh seed).

Definition op (is_training : bool) : list (list Q) → X Q (list (list Q)) :=
  match built is_training with
  | inr (bn, _) => bn
  | inl _ => λ _, abort
  end.

Definition graph (is_training : bool) : gmap string (variable Q) :=
  match built is_training with
  | inr (_, bs) => graph_vars bs
  | inl _ => ∅
  end.

(** The same site built with [is_training = False], its tensor [training]
    feedable. *)
Definition built_graph
    : pyerror + ((option bool → list (list Q) → X Q (list (list Q))) * bstate Q (list Q)) :=
  batch_norm_graph x_shape "bn" false default_epsilon default_decay root (fresh seed).

Definition graph_op : option bool → list (list Q) → X Q (list (list Q)) :=
  match built_graph with
  | inr (bn, _) => bn
  | inl _ => λ _ _, abort
  end.

Definition graph_fed : gmap string (variable Q) :=
  match built_graph with
  | inr (_, bs) => graph_vars bs
  | inl _ => ∅
  end.

(** What the variables of the site hold right after construction. *)
Definition params : bn_params :=
  BnParams [1 # 10; 1 # 10]%Q [1 # 2; -1 # 4]%Q [0; 0]%Q [1; 1]%Q.

(** A pretrained table of two words in three dimensions. *)
Definition pretrained : list (list Q) := [[1; 2; 3]; [4; 5; 6]]%Q.

(** A cell of one unit in training mode, called once in a fresh graph on
    inputs of width two. *)
Definition cell : BatchNormLSTMCell := Cell 1 true (sconst 1) stanh None.

Definition cell_seed : list Q :=
  [1; 2; 3; 4; 5; 6; 7; 8; 1 # 3; 1 # 5; 1 # 7;
   1 # 2; -1 # 2; 1 # 4; -1 # 4; 1 # 8; 1 # 9; 1 # 10; 1 # 11;
   -1 # 8; -1 # 9; -1 # 10; -1 # 11; 3 # 4]%Q.

Definition cell_built
    : pyerror + ((list (list Q) → list (list Q) * list (list Q) →
                  X Q (list (list Q) * (list (list Q) * list (list Q))))
                 * bstate Q (list Q)) :=
  call cell [None; Some 2] None root (fresh cell_seed).

Definition cell_step
    : list (list Q) → list (list Q) * list (list Q) →
      X Q (list (list Q) * (list (list Q) * list (list Q))) :=
  match cell_built with
  | inr (step, _) => step
  | inl _ => λ _ _, abort
  end.

Definition cell_graph : gmap string (variable Q) :=
  match cell_built with
  | inr (_, bs) => graph_vars bs
  | inl _ => ∅
  end.

Definition cell_w : cell_params := cell_params_of cell_graph "BatchNormLSTMCell".

(** A batch of two examples, and the zero state. *)
Definition cell_x : list (list Q) := [[1; 2]; [3; 4]]%Q.
Definition cell_c : list (list Q) := [[0]; [0]]%Q.
Definition cell_h : list (list Q) := [[0]; [0]]%Q.

(** A TextRNN for sequences of two tokens, three classes, a vocabulary of
    four words embedded in two dimensions, one hidden unit, the random
    embedding and an L2 weight of 1/2, built in a fresh graph. *)
Definition rnn_seed : list Q :=
  [1; 2; 1 # 2; -1 # 2; 1 # 4; 3 # 4; 1 # 8; -3 # 8;
   1 # 3; -1 # 3; 2 # 3; -2 # 3; 1 # 5; -1 # 5]%Q.

Definition rnn_built : pyerror + (TextRNN (T := Q) * bstate Q (list Q)) :=
  TextRNN_init 2 3 4 1 2 0 (1 # 2)%Q None root (fresh rnn_seed).

Definition rnn_run : X Q (list (list Q) * Q) :=
  match rnn_built with
  | inr (model, _) => logits_and_loss model
  | inl _ => abort
  end.

Definition rnn_graph : gmap string (variable Q) :=
  match rnn_built with
  | inr (_, bs) => graph_vars bs
  | inl _ => ∅
  end.

(** A batch of two sequences with their multi-hot labels. *)
Definition rnn_feed : gmap string (value Q) :=
  {[ "input_x" := Ints [[0; 1]; [2; 3]];
     "input_y" := Mat [[1; 0; 1]; [0; 0; 1]]%Q;
     "dropout_keep_prob" := Scal 1%Q ]}.

End Examples.

Module RealExamples.
Import Real.

(** The TextRNN of the rational examples over the real numbers. *)
Definition rnn_seed : list R :=
  [1; 2; 1 / 2; -1 / 2; 1 / 4; 3 / 4; 1 / 8; -3 / 8;
   1 / 3; -1 / 3; 2 / 3; -2 / 3; 1 / 5; -1 / 5]%R.

Definition rnn_built : pyerror + (TextRNN (T := R) * bstate R (list R)) :=
  TextRNN_init 2 3 4 1 2 0 (1 / 2)%R None root (fresh rnn_seed).

Definition rnn_run : X R (list (list R) * R) :=
  match rnn_built with
  | inr (model, _) => logits_and_loss model
  | inl _ => abort
  end.

Definition rnn_graph : gmap string (variable R) :=
  match rnn_built with
  | inr (_, bs) => graph_vars bs
  | inl _ => ∅
  end.

Definition rnn_labels : list (list R) := [[1; 0; 1]; [0; 0; 1]]%R.

Definition rnn_feed : gmap string (value R) :=
  {[ "input_x" := Ints [[0; 1]; [2; 3]];
     "input_y" := Mat rnn_labels;
     "dropout_keep_prob" := Scal 1%R ]}.

(** A cell of one unit with the default activation, in training mode. *)
Definition cell : BatchNormLSTMCell := Cell 1 true (sconst 1) stanh None.

Definition cell_seed : list R :=
  [1; 2; 3; 4; 5; 6; 7; 8; 1 / 3; 1 / 5; 1 / 7;
   1 / 2; -1 / 2; 1 / 4; -1 / 4; 1 / 8; 1 / 9; 1 / 10; 1 / 11;
   -1 / 8; -1 / 9; -1 / 10; -1 / 11; 3 / 4]%R.

Definition cell_built
    : pyerror + ((list (list R) → list (list R) * list (list R) →
                  X R (list (list R) * (list (list R) * list (list R))))
                 * bstate R (list R)) :=
  call cell [None; Some 2] None root (fresh cell_seed).

Definition cell_step
    : list (list R) → list (list R) * list (list R) →
      X R (list (list R) * (list (list R) * list (list R))) :=
  match cell_built with
  | inr (step, _) => step
  | inl _ => λ _ _, abort
  end.

Definition cell_graph : gmap string (variable R) :=
  match cell_built with
  | inr (_, bs) => graph_vars bs
  | inl _ => ∅
  end.

Definition cell_w : cell_params := cell_params_of cell_graph "BatchNormLSTMCell".

Definition cell_x : list (list R) := [[1; 2]; [3; 4]]%R.
Definition cell_c : list (list R) := [[0]; [0]]%R.
Definition cell_h : list (list R) := [[0]; [0]]%R.

(** One normalisation site in training mode. *)
Definition bn_built
    : pyerror + ((list (list R) → X R (list (list R))) * bstate R (list R)) :=
  batch_norm [None; Some 2] "bn" true default_epsilon default_decay root
    (fresh [1 / 2; -1 / 4]%R).

Definition bn_op : list (list R) → X R (list (list R)) :=
  match bn_built with
  | inr (bn, _) => bn
  | inl _ => λ _, abort
  end.

Definition bn_graph : gmap string (variable R) :=
  match bn_built with
  | inr (_, bs) => graph_vars bs
  | inl _ => ∅
  end.

Definition bn_w : bn_params := bn_params_of bn_graph "bn".

Definition batch : list (list R) := [[1; 2]; [3; 6]]%R.

End RealExamples.
(** * Properties *)

(** ** Names and stores *)

Section Stores.
Context {T : Type}.

Lemma scoped_inj (prefix a b : string) : scoped prefix a = scoped prefix b → a = b.
Proof.
  unfold scoped. case_bool_decide; [done|].
  intros E%(inj (String.app prefix)). by injection E.
Qed.

Lemma scoped_ne (prefix a b : string) : a ≠ b → scoped prefix a ≠ scoped prefix b.
Proof. intros Hne E. by apply Hne, (scoped_inj prefix). Qed.

Lemma read_vec_holds (st : gmap string (variable T)) name v feed :
  holds st name (Vec v) → read_vec name feed st = Some (v, st).
Proof. unfold holds, read_vec. by intros ->. Qed.

Lemma read_mat_holds (st : gmap string (variable T)) name m feed :
  holds st name (Mat m) → read_mat name feed st = Some (m, st).
Proof. unfold holds, read_mat. by intros ->. Qed.

Lemma tf_assign_holds (st : gmap string (variable T)) name w v feed :
  holds st name w → tf_assign name v feed st = Some (tt, alter (set_value v) name st).
Proof.
  unfold holds, tf_assign. destruct (st !! name); [done|discriminate].
Qed.

Lemma holds_alter_ne (st : gmap string (variable T)) name name' v w :
  name ≠ name' → holds st name v → holds (alter (set_value w) name' st) name v.
Proof. unfold holds. intros Hne Hv. by rewrite lookup_alter_ne. Qed.

Lemma holds_alter_eq (st : gmap string (variable T)) name v w :
  holds st name v → holds (alter (set_value w) name st) name w.
Proof.
  unfold holds. rewrite lookup_alter_eq.
  destruct (st !! name); [done|discriminate].
Qed.

End Stores.

(** ** Batch normalisation *)

Section Batch_norm.
Context {T rng : Type} {SC : Scalar T} {LB : Lib T rng}.

Local Abbreviation mat := (list (list T)).

Lemma population_statistics_run (st : gmap string (variable T)) site p epsilon xv feed :
  bn_site st site p →
  population_statistics xv (scoped site "scale") (scoped site "offset")
    (scoped site "pop_mean") (scoped site "pop_var") epsilon feed st
  = Some (bn_inference p epsilon xv, st).
Proof.
  intros (Hs & Ho & Hm & Hv).
  unfold population_statistics, mbind, X_bind.
  rewrite (read_vec_holds _ _ _ _ Hm), (read_vec_holds _ _ _ _ Hv),
    (read_vec_holds _ _ _ _ Ho), (read_vec_holds _ _ _ _ Hs).
  reflexivity.
Qed.

Lemma population_statistics_pure (st st' : gmap string (variable T))
    xv scale offset pop_mean pop_var epsilon feed r :
  population_statistics xv scale offset pop_mean pop_var epsilon feed st = Some (r, st') →
  st' = st.
Proof.
  unfold population_statistics, mbind, X_bind, read_vec, mret, X_ret.
  intros Hq. repeat (case_match; simplify_eq/=). done.
Qed.

Lemma batch_statistics_run (st : gmap string (variable T)) size site p epsilon decay xv feed :
  bn_site st site p →
  batch_statistics size xv (scoped site "scale") (scoped site "offset")
    (scoped site "pop_mean") (scoped site "pop_var") epsilon decay feed st
  = Some (bn_training size p epsilon xv, bn_trained_store size site p decay xv st).
Proof.
  intros (Hs & Ho & Hm & Hv).
  unfold batch_statistics, bn_training, bn_trained_store.
  destruct (moments size xv) as [batch_mean batch_var]; simpl.
  unfold mbind, X_bind.
  rewrite (read_vec_holds _ _ _ _ Hm), (tf_assign_holds _ _ _ _ _ Hm).
  set (v1 := Vec (vadd _ _)).
  assert (Hv' : holds (alter (set_value v1) (scoped site "pop_mean") st)
                  (scoped site "pop_var") (Vec (bn_pop_var p))).
  { apply holds_alter_ne; [by apply scoped_ne|done]. }
  rewrite (read_vec_holds _ _ _ _ Hv'), (tf_assign_holds _ _ _ _ _ Hv').
  set (v2 := Vec (vadd _ _)).
  rewrite (read_vec_holds _ _ (bn_offset p)), (read_vec_holds _ _ (bn_scale p)).
  - reflexivity.
  - do 2 (apply holds_alter_ne; [by apply scoped_ne|]); done.
  - do 2 (apply holds_alter_ne; [by apply scoped_ne|]); done.
Qed.

(** After a training-mode execution the site holds the moving averages and
    the same scale and offset. *)
Lemma bn_trained_store_site (st : gmap string (variable T)) size site p decay xv :
  bn_site st site p →
  bn_site (bn_trained_store size site p decay xv st) site
    (BnParams (bn_scale p) (bn_offset p)
       (moving_average (bn_pop_mean p) (moments size xv).1 decay)
       (moving_average (bn_pop_var p) (moments size xv).2 decay)).
Proof.
  intros (Hs & Ho & Hm & Hv). unfold bn_trained_store. repeat split; simpl.
  - do 2 (apply holds_alter_ne; [by apply scoped_ne|]); done.
  - do 2 (apply holds_alter_ne; [by apply scoped_ne|]); done.
  - apply holds_alter_ne; [by apply scoped_ne|]. by eapply holds_alter_eq.
  - eapply holds_alter_eq. apply holds_alter_ne; [by apply scoped_ne|done].
Qed.

Lemma get_variable_name name shape init trainable sc (bs bs' : bstate T rng) full :
  get_variable name shape init trainable sc bs = inr (full, bs') →
  full = scoped (vs_name sc) name.
Proof.
  unfold get_variable. intros Hg. by repeat (case_match; simplify_eq/=).
Qed.

(** What a successful call of [batch_norm] returns. *)
Lemma batch_norm_inv x name_scope is_training epsilon decay sc
    (bs bs' : bstate T rng) (bn : mat → X T mat) :
  batch_norm x name_scope is_training epsilon decay sc bs = inr (bn, bs') →
  let site := scoped (vs_name sc) name_scope in
  ∃ size, x !! 1 = Some size ∧
    bn = (λ xv, tf_cond (tf_constant is_training)
            (batch_statistics (default (shape_of xv).2 size) xv
               (scoped site "scale") (scoped site "offset")
               (scoped site "pop_mean") (scoped site "pop_var") epsilon decay)
            (population_statistics xv
               (scoped site "scale") (scoped site "offset")
               (scoped site "pop_mean") (scoped site "pop_var") epsilon)).
Proof.
  unfold batch_norm, variable_scope, as_list_at. simpl.
  destruct (x !! 1) as [size|]; [|discriminate].
  unfold mbind, B_bind, mret, B_ret. simpl.
  intros Hb. exists size. split; [done|].
  repeat match type of Hb with
  | context [get_variable ?a ?b ?c ?d ?e ?f] =>
      let E := fresh "E" in
      destruct (get_variable a b c d e f) as [?|[? ?]] eqn:E; [discriminate|];
      apply get_variable_name in E; simpl in E; subst
  end.
  by injection Hb as <- _.
Qed.

Lemma tf_cond_constant {A : Type} (b : bool) (t f : X T A) feed st :
  tf_cond (tf_constant b) t f feed st = (if b then t else f) feed st.
Proof. reflexivity. Qed.

(** [batch_norm] is the graph of [batch_norm_graph] in the executions that
    do not feed the tensor [training]. *)
Lemma batch_norm_unfed x name_scope is_training epsilon decay sc (bs : bstate T rng) :
  batch_norm x name_scope is_training epsilon decay sc bs
  = match batch_norm_graph x name_scope is_training epsilon decay sc bs with
    | inl e => inl e
    | inr (bn, bs') => inr (bn None, bs')
    end.
Proof.
  unfold batch_norm, batch_norm_graph, variable_scope, as_list_at.
  destruct (x !! 1) as [size|]; [|reflexivity].
  unfold mbind, B_bind, mret, B_ret. simpl.
  repeat match goal with
  | |- context [get_variable ?a ?b ?c ?d ?e ?f] =>
      destruct (get_variable a b c d e f) as [?|[? ?]]; [reflexivity|]
  end.
  reflexivity.
Qed.

(** What a successful call of [batch_norm_graph] returns. *)
Lemma batch_norm_graph_inv x name_scope is_training epsilon decay sc
    (bs bs' : bstate T rng) (bn : option bool → mat → X T mat) :
  batch_norm_graph x name_scope is_training epsilon decay sc bs = inr (bn, bs') →
  let site := scoped (vs_name sc) name_scope in
  ∃ size, x !! 1 = Some size ∧
    bn = (λ fed xv, tf_cond (tf_constant_fed is_training fed)
            (batch_statistics (default (shape_of xv).2 size) xv
               (scoped site "scale") (scoped site "offset")
               (scoped site "pop_mean") (scoped site "pop_var") epsilon decay)
            (population_statistics xv
               (scoped site "scale") (scoped site "offset")
               (scoped site "pop_mean") (scoped site "pop_var") epsilon)).
Proof.
  unfold batch_norm_graph, variable_scope, as_list_at. simpl.
  destruct (x !! 1) as [size|]; [|discriminate].
  unfold mbind, B_bind, mret, B_ret. simpl.
  intros Hb. exists size. split; [done|].
  repeat match type of Hb with
  | context [get_variable ?a ?b ?c ?d ?e ?f] =>
      let E := fresh "E" in
      destruct (get_variable a b c d e f) as [?|[? ?]] eqn:E; [discriminate|];
      apply get_variable_name in E; simpl in E; subst
  end.
  by injection Hb as <- _.
Qed.

(** What a successful creation by [tf.get_variable] leaves in the graph. *)
Lemma get_variable_creates name shape init trainable sc (bs bs' : bstate T rng) full :
  vs_reuse sc = false →
  get_variable name shape init trainable sc bs = inr (full, bs') →
  ∃ dims v,
    fully_defined shape = Some dims ∧
    default default_initializer init dims (np_seed bs) = inr (v, np_seed bs') ∧
    graph_vars bs' = <[scoped (vs_name sc) name := Variable_ dims trainable v]> (graph_vars bs).
Proof.
  unfold get_variable. intros -> Hg.
  destruct (graph_vars bs !! _); [discriminate|].
  destruct (fully_defined shape) as [dims|]; [|discriminate].
  match type of Hg with context [match ?e with inl _ => _ | inr _ => _ end] =>
    destruct e as [e'|[v seed']] eqn:E; [discriminate|] end.
  exists dims, v. by simplify_eq/=.
Qed.

(** C3.  A training-mode execution of a constructed [batch_norm] returns
    the input normalised by the mean and the variance of the batch (with
    [epsilon] added to the variance, and the scale and offset of the site),
    and leaves the store in which [pop_mean] and [pop_var] have been
    assigned [pop_mean * decay + m * (1 - decay)] and
    [pop_var * decay + v * (1 - decay)]: the assignments have run when the
    result is returned, and scale and offset are as before. *)
Theorem batch_norm_training_updates_running_estimates
    x name_scope epsilon decay sc (bs bs' : bstate T rng) (bn : mat → X T mat) size :
  x !! 1 = Some (Some size) →
  batch_norm x name_scope true epsilon decay sc bs = inr (bn, bs') →
  ∀ (st : gmap string (variable T)) p xv feed,
    bn_site st (scoped (vs_name sc) name_scope) p →
    let m := (moments size xv).1 in
    let v := (moments size xv).2 in
    let st' := bn_trained_store size (scoped (vs_name sc) name_scope) p decay xv st in
    bn xv feed st
    = Some (batch_normalization xv m v (bn_offset p) (bn_scale p) epsilon, st') ∧
    bn_site st' (scoped (vs_name sc) name_scope)
      (BnParams (bn_scale p) (bn_offset p)
         (vadd (vscale (bn_pop_mean p) decay) (vscale m (ssub sone decay)))
         (vadd (vscale (bn_pop_var p) decay) (vscale v (ssub sone decay)))).
Proof.
  intros Hx Hb st p xv feed Hsite.
  apply batch_norm_inv in Hb as (size' & Hx' & ->).
  rewrite Hx in Hx'. injection Hx' as <-. cbv zeta.
  split.
  - rewrite tf_cond_constant. simpl default.
    by rewrite (batch_statistics_run _ _ _ p).
  - by apply bn_trained_store_site.
Qed.

(** C4.  An inference-mode execution of a constructed [batch_norm]
    normalises by the stored [pop_mean] and [pop_var] and returns the store
    it was given; and whatever the store holds, an execution that returns
    has changed no variable. *)
Theorem batch_norm_inference_is_read_only
    x name_scope epsilon decay sc (bs bs' : bstate T rng) (bn : mat → X T mat) :
  batch_norm x name_scope false epsilon decay sc bs = inr (bn, bs') →
  (∀ (st : gmap string (variable T)) p xv feed,
     bn_site st (scoped (vs_name sc) name_scope) p →
     bn xv feed st
     = Some (batch_normalization xv (bn_pop_mean p) (bn_pop_var p)
               (bn_offset p) (bn_scale p) epsilon, st)) ∧
  (∀ (st st' : gmap string (variable T)) xv feed r,
     bn xv feed st = Some (r, st') → st' = st).
Proof.
  intros Hb. apply batch_norm_inv in Hb as (size & _ & ->). cbv zeta. split.
  - intros st p xv feed Hsite. rewrite tf_cond_constant.
    by rewrite (population_statistics_run _ _ p).
  - intros st st' xv feed r. rewrite tf_cond_constant.
    apply population_statistics_pure.
Qed.

(** C2.  The mode of a constructed [batch_norm] is chosen when it is
    executed, by the value the tensor [training] then carries: the graph
    holds both normalisations under one conditional, and whatever
    [is_training] was when it was built, an execution in which [training]
    carries true normalises by the statistics of the batch and updates the
    running estimates, and an execution of the same graph in which it
    carries false normalises by the running estimates and updates nothing.
    [training] is the constant of line 114: it carries [is_training] in the
    executions that do not feed it, which are the ones [batch_norm]
    describes, and the fed value in the others. *)
Theorem batch_norm_mode_chosen_at_execution
    x name_scope is_training epsilon decay sc (bs bs' : bstate T rng)
    (bn : option bool → mat → X T mat) size :
  x !! 1 = Some (Some size) →
  batch_norm_graph x name_scope is_training epsilon decay sc bs = inr (bn, bs') →
  batch_norm x name_scope is_training epsilon decay sc bs = inr (bn None, bs') ∧
  ∀ (st : gmap string (variable T)) p xv feed,
    bn_site st (scoped (vs_name sc) name_scope) p →
    bn (Some true) xv feed st
    = Some (bn_training size p epsilon xv,
            bn_trained_store size (scoped (vs_name sc) name_scope) p decay xv st) ∧
    bn (Some false) xv feed st = Some (bn_inference p epsilon xv, st) ∧
    bn None xv feed st = bn (Some is_training) xv feed st.
Proof.
  intros Hx Hb. split.
  { by rewrite batch_norm_unfed, Hb. }
  apply batch_norm_graph_inv in Hb as (size' & Hx' & ->).
  rewrite Hx in Hx'. injection Hx' as <-.
  intros st p xv feed Hsite. simpl default. split; [|split].
  - change (batch_statistics size xv (scoped (scoped (vs_name sc) name_scope) "scale")
              (scoped (scoped (vs_name sc) name_scope) "offset")
              (scoped (scoped (vs_name sc) name_scope) "pop_mean")
              (scoped (scoped (vs_name sc) name_scope) "pop_var") epsilon decay feed st
            = Some (bn_training size p epsilon xv,
                    bn_trained_store size (scoped (vs_name sc) name_scope) p decay xv st)).
    by apply batch_statistics_run.
  - change (population_statistics xv (scoped (scoped (vs_name sc) name_scope) "scale")
              (scoped (scoped (vs_name sc) name_scope) "offset")
              (scoped (scoped (vs_name sc) name_scope) "pop_mean")
              (scoped (scoped (vs_name sc) name_scope) "pop_var") epsilon feed st
            = Some (bn_inference p epsilon xv, st)).
    by apply population_statistics_run.
  - reflexivity.
Qed.

(** C7, as the code has it.  When [batch_norm] creates its variables, each
    has the size of the features; [scale] is 0.1 everywhere and trainable,
    [pop_mean] is 0 and [pop_var] is 1 everywhere and neither is trainable;
    [offset] is trainable and, no initializer being passed for it, has the
    value the default initializer draws. *)
Theorem batch_norm_initial_values
    x name_scope is_training epsilon decay sc (bs bs' : bstate T rng)
    (bn : mat → X T mat) :
  vs_reuse sc = false →
  batch_norm x name_scope is_training epsilon decay sc bs = inr (bn, bs') →
  let site := scoped (vs_name sc) name_scope in
  ∃ n v,
    x !! 1 = Some (Some n) ∧
    default_initializer [n] (np_seed bs) = inr (v, np_seed bs') ∧
    graph_vars bs' !! scoped site "scale"
      = Some (Variable_ [n] true (Vec (replicate n (sconst (1 # 10))))) ∧
    graph_vars bs' !! scoped site "offset" = Some (Variable_ [n] true v) ∧
    graph_vars bs' !! scoped site "pop_mean"
      = Some (Variable_ [n] false (Vec (replicate n szero))) ∧
    graph_vars bs' !! scoped site "pop_var"
      = Some (Variable_ [n] false (Vec (replicate n sone))).
Proof.
  intros Hreuse Hb. simpl.
  unfold batch_norm, variable_scope, as_list_at in Hb. simpl in Hb.
  destruct (x !! 1) as [size|]; [|discriminate].
  unfold mbind, B_bind, mret, B_ret in Hb. simpl in Hb.
  set (sc' := VScope _ _) in Hb.
  destruct (get_variable "scale" _ _ _ sc' bs) as [?|[n1 b1]] eqn:E1; [discriminate|].
  destruct (get_variable "offset" _ _ _ sc' b1) as [?|[n2 b2]] eqn:E2; [discriminate|].
  destruct (get_variable "pop_mean" _ _ _ sc' b2) as [?|[n3 b3]] eqn:E3; [discriminate|].
  destruct (get_variable "pop_var" _ _ _ sc' b3) as [?|[n4 b4]] eqn:E4; [discriminate|].
  injection Hb as _ <-.
  apply get_variable_creates in E1 as (d1 & v1 & F1 & I1 & G1); [|done].
  apply get_variable_creates in E2 as (d2 & v2 & F2 & I2 & G2); [|done].
  apply get_variable_creates in E3 as (d3 & v3 & F3 & I3 & G3); [|done].
  apply get_variable_creates in E4 as (d4 & v4 & F4 & I4 & G4); [|done].
  destruct size as [n|]; [|by cbv in F1].
  cbv in F1, F2, F3, F4. simplify_eq.
  unfold constant_initializer, zeros_initializer, ones_initializer,
    constant_initializer, full_vec in *.
  simpl in I1, I2, I3, I4. simplify_eq.
  exists n, v2. split; [done|].
  split; [by congruence|].
  subst sc'. simpl vs_name in *.
  rewrite G4, G3, G2, G1.
  repeat split.
  - do 3 (rewrite lookup_insert_ne; [|by apply scoped_ne]). by rewrite lookup_insert_eq.
  - do 2 (rewrite lookup_insert_ne; [|by apply scoped_ne]). by rewrite lookup_insert_eq.
  - rewrite lookup_insert_ne; [|by apply scoped_ne]. by rewrite lookup_insert_eq.
  - by rewrite lookup_insert_eq.
Qed.

End Batch_norm.

(** *** The theorems at a concrete graph *)

Import Rational.

(** The example constructions succeed and use up the two numbers of the
    random source.  Only the graph is computed: the constructed operation
    is kept as it is. *)
Lemma built_succeeds (is_training : bool) :
  Examples.built is_training
  = inr (Examples.op is_training, BState (Examples.graph is_training) []).
Proof.
  assert (Hseed : match Examples.built is_training with
                  | inr (_, bs) => Some (np_seed bs)
                  | inl _ => None
                  end = Some [])
    by (destruct is_training; vm_compute; reflexivity).
  unfold Examples.op, Examples.graph.
  destruct (Examples.built is_training) as [e|[bn [g s]]]; [discriminate|].
  simpl in *. by injection Hseed as ->.
Qed.

Lemma built_site (is_training : bool) :
  bn_site (Examples.graph is_training) "bn" Examples.params.
Proof. destruct is_training; repeat split; vm_compute; reflexivity. Qed.

Lemma batch_norm_training_witness :
  Examples.x_shape !! 1 = Some (Some 2) ∧
  Examples.built true
    = inr (Examples.op true, BState (Examples.graph true) []) ∧
  bn_site (Examples.graph true) "bn" Examples.params ∧
  Examples.op true Examples.batch ∅ (Examples.graph true)
  = Some ([[1601 # 4002; -6601 # 20004]; [2401 # 4002; -3401 # 20004]]%Q,
          bn_trained_store 2 "bn" Examples.params default_decay Examples.batch
            (Examples.graph true)) ∧
  holds (bn_trained_store 2 "bn" Examples.params default_decay Examples.batch
           (Examples.graph true))
    "bn/pop_mean" (Vec [1 # 500; 1 # 250]%Q).
Proof.
  assert (Hx : Examples.x_shape !! 1 = Some (Some 2)) by reflexivity.
  pose proof (built_succeeds true) as Hb.
  pose proof (built_site true) as Hs.
  destruct (batch_norm_training_updates_running_estimates
              Examples.x_shape "bn" default_epsilon default_decay Rational.root
              _ _ _ 2 Hx Hb (Examples.graph true) Examples.params Examples.batch ∅ Hs)
    as [Hrun (_ & _ & Hmean & _)].
  split; [exact Hx|]. split; [exact Hb|]. split; [exact Hs|]. split.
  - rewrite Hrun. f_equal.
  - exact Hmean.
Defined.

Lemma batch_norm_inference_witness :
  Examples.built false
    = inr (Examples.op false, BState (Examples.graph false) []) ∧
  bn_site (Examples.graph false) "bn" Examples.params ∧
  Examples.op false Examples.batch ∅ (Examples.graph false)
  = Some ([[2401 # 4002; -401 # 8004]; [1067 # 1334; 933 # 2668]]%Q,
          Examples.graph false).
Proof.
  pose proof (built_succeeds false) as Hb.
  pose proof (built_site false) as Hs.
  destruct (batch_norm_inference_is_read_only
              Examples.x_shape "bn" default_epsilon default_decay Rational.root
              _ _ _ Hb) as [Hrun _].
  split; [exact Hb|]. split; [exact Hs|].
  rewrite (Hrun (Examples.graph false) Examples.params Examples.batch ∅ Hs).
  f_equal.
Defined.

Lemma built_graph_succeeds :
  Examples.built_graph = inr (Examples.graph_op, BState Examples.graph_fed []).
Proof.
  assert (Hseed : match Examples.built_graph with
                  | inr (_, bs) => Some (np_seed bs)
                  | inl _ => None
                  end = Some [])
    by (vm_compute; reflexivity).
  unfold Examples.graph_op, Examples.graph_fed.
  destruct Examples.built_graph as [e|[bn [g s]]]; [discriminate|].
  simpl in *. by injection Hseed as ->.
Qed.

Lemma built_graph_site : bn_site Examples.graph_fed "bn" Examples.params.
Proof. repeat split; vm_compute; reflexivity. Qed.

Lemma batch_norm_mode_chosen_at_execution_witness :
  Examples.x_shape !! 1 = Some (Some 2) ∧
  Examples.built_graph = inr (Examples.graph_op, BState Examples.graph_fed []) ∧
  bn_site Examples.graph_fed "bn" Examples.params ∧
  Examples.graph_op (Some true) Examples.batch ∅ Examples.graph_fed
  = Some ([[1601 # 4002; -6601 # 20004]; [2401 # 4002; -3401 # 20004]]%Q,
          bn_trained_store 2 "bn" Examples.params default_decay Examples.batch
            Examples.graph_fed) ∧
  Examples.graph_op (Some false) Examples.batch ∅ Examples.graph_fed
  = Some ([[2401 # 4002; -401 # 8004]; [1067 # 1334; 933 # 2668]]%Q,
          Examples.graph_fed) ∧
  Examples.graph_op None Examples.batch ∅ Examples.graph_fed
  = Examples.graph_op (Some false) Examples.batch ∅ Examples.graph_fed ∧
  holds Examples.graph_fed "bn/pop_mean" (Vec [0; 0]%Q) ∧
  holds (bn_trained_store 2 "bn" Examples.params default_decay Examples.batch
           Examples.graph_fed) "bn/pop_mean" (Vec [1 # 500; 1 # 250]%Q).
Proof.
  assert (Hx : Examples.x_shape !! 1 = Some (Some 2)) by reflexivity.
  pose proof built_graph_succeeds as Hb.
  pose proof built_graph_site as Hs.
  destruct (batch_norm_mode_chosen_at_execution
              Examples.x_shape "bn" false default_epsilon default_decay Rational.root
              _ _ _ 2 Hx Hb) as [_ Hrun].
  destruct (Hrun Examples.graph_fed Examples.params Examples.batch ∅ Hs)
    as (Htrue & Hfalse & Hnone).
  split; [exact Hx|]. split; [exact Hb|]. split; [exact Hs|].
  split; [rewrite Htrue; f_equal|].
  split; [rewrite Hfalse; f_equal|].
  split; [exact Hnone|].
  split; [apply Hs|].
  destruct (bn_trained_store_site Examples.graph_fed 2 "bn" Examples.params
              default_decay Examples.batch Hs) as (_ & _ & Hmean & _).
  exact Hmean.
Defined.

Lemma batch_norm_initial_values_witness :
  vs_reuse Rational.root = false ∧
  Examples.built false
    = inr (Examples.op false, BState (Examples.graph false) []) ∧
  ∃ n v,
    Examples.x_shape !! 1 = Some (Some n) ∧
    default_initializer [n] Examples.seed = inr (v, []) ∧
    Examples.graph false !! "bn/scale"
      = Some (Variable_ [n] true (Vec (replicate n (sconst (1 # 10))))) ∧
    Examples.graph false !! "bn/offset" = Some (Variable_ [n] true v) ∧
    Examples.graph false !! "bn/pop_mean"
      = Some (Variable_ [n] false (Vec (replicate n szero))) ∧
    Examples.graph false !! "bn/pop_var"
      = Some (Variable_ [n] false (Vec (replicate n sone))).
Proof.
  pose proof (built_succeeds false) as Hb.
  split; [reflexivity|]. split; [exact Hb|].
  exact (batch_norm_initial_values
           Examples.x_shape "bn" false default_epsilon default_decay Rational.root
           _ _ _ eq_refl Hb).
Defined.

(** C7 as stated fails.  In a fresh graph, with a random source whose next
    numbers are 1/2 and -1/4, the [offset] that [batch_norm] creates for two
    features starts at those numbers, not at zero. *)
Lemma batch_norm_offset_initially_drawn :
  vs_reuse Rational.root = false ∧
  Examples.built false
    = inr (Examples.op false, BState (Examples.graph false) []) ∧
  Examples.graph false !! "bn/offset"
    = Some (Variable_ [2] true (Vec [1 # 2; -1 # 4]%Q)) ∧
  Vec [1 # 2; -1 # 4]%Q ≠ Vec (replicate 2 (szero : Q)).
Proof.
  split; [reflexivity|]. split; [apply built_succeeds|].
  split; [vm_compute; reflexivity|]. vm_compute. discriminate.
Qed.

(** ** The cell *)

Section Names.

Lemma string_app_assoc (a b c : string) : (a +:+ b) +:+ c = a +:+ b +:+ c.
Proof.
  induction a as [|x a IH]; [done|].
  change (String x ((a +:+ b) +:+ c) = String x (a +:+ b +:+ c)).
  by rewrite IH.
Qed.

Lemma string_app_nonempty (a b : string) : a ≠ "" → a +:+ b ≠ "".
Proof. by destruct a. Qed.

(** Names under two sites of one scope differ when they differ below the
    scope. *)
Lemma scoped_nested_ne (prefix s a s' a' : string) :
  s ≠ "" → s' ≠ "" →
  s +:+ "/" +:+ a ≠ s' +:+ "/" +:+ a' →
  scoped (scoped prefix s) a ≠ scoped (scoped prefix s') a'.
Proof.
  intros Hs Hs' Hne. unfold scoped.
  destruct (bool_decide (prefix = "")).
  - rewrite !bool_decide_eq_false_2 by done. done.
  - rewrite !bool_decide_eq_false_2
      by (intros E; destruct prefix; discriminate).
    rewrite !string_app_assoc. intros E%(inj (String.app prefix)).
    apply Hne. cbn in E. by injection E.
Qed.

End Names.

(** *** Widths *)

Section Widths.
Context {T : Type} {SC : Scalar T}.

Local Abbreviation vec := (list T).
Local Abbreviation mat := (list (list T)).

Lemma rows_of_width_map (g : vec → vec) (k k' : nat) (m : mat) :
  (∀ r, length r = k → length (g r) = k') →
  rows_of_width k m → rows_of_width k' (map g m).
Proof.
  intros Hg Hm. unfold rows_of_width in *.
  induction Hm; simpl; constructor; auto.
Qed.

Lemma rows_of_width_zip_with (g : vec → vec → vec) (k : nat) (a b : mat) :
  (∀ r s, length r = k → length s = k → length (g r s) = k) →
  rows_of_width k a → rows_of_width k b → rows_of_width k (zip_with g a b).
Proof.
  intros Hg Ha. unfold rows_of_width in *. revert b.
  induction Ha as [|r a Hr Ha IH]; intros [|s b] Hb; simpl; try constructor.
  - inversion Hb; subst. auto.
  - inversion Hb; subst. auto.
Qed.

Lemma length_zip_same (g : T → T → T) (k : nat) (r s : vec) :
  length r = k → length s = k → length (zip_with g r s) = k.
Proof. intros Hr Hs. rewrite length_zip_with_l_eq; congruence. Qed.

Lemma length_columns (m : mat) (k : nat) : length (columns m k) = k.
Proof. unfold columns. by rewrite length_map, length_seq. Qed.

Lemma matmul_width (k : nat) (x w : mat) : rows_of_width k (matmul k x w).
Proof.
  unfold matmul, rows_of_width. apply Forall_map, Forall_forall.
  intros r _. by rewrite length_map, length_columns.
Qed.

Lemma matmul_length (k : nat) (x w : mat) : length (matmul k x w) = length x.
Proof. unfold matmul. by rewrite length_map. Qed.

Lemma moments_length (k : nat) (x : mat) :
  length (moments k x).1 = k ∧ length (moments k x).2 = k.
Proof. unfold moments. simpl. by rewrite !length_map, !length_columns. Qed.

Lemma batch_normalization_width (k : nat) (x : mat) mean variance offset scale epsilon :
  length mean = k → length variance = k → length offset = k → length scale = k →
  rows_of_width k x →
  rows_of_width k (batch_normalization x mean variance offset scale epsilon).
Proof.
  intros Hm Hv Ho Hs Hx. unfold batch_normalization, madd_row, mmul_row.
  assert (Hinv : length (vmul (map (λ v, srsqrt (sadd v epsilon)) variance) scale) = k).
  { apply length_zip_same; [by rewrite length_map|done]. }
  apply (rows_of_width_map _ k).
  - intros r Hr. apply length_zip_same; [done|].
    apply length_zip_same; [done|]. by apply length_zip_same.
  - apply (rows_of_width_map _ k); [|done].
    intros r Hr. by apply length_zip_same.
Qed.

Lemma batch_normalization_length (x : mat) mean variance offset scale epsilon :
  length (batch_normalization x mean variance offset scale epsilon) = length x.
Proof. unfold batch_normalization, madd_row, mmul_row. by rewrite !length_map. Qed.

Lemma bn_apply_width (training : bool) (k : nat) (p : bn_params) epsilon (x : mat) :
  bn_sized k p → rows_of_width k x →
  rows_of_width k (bn_apply training k p epsilon x).
Proof.
  intros (Hs & Ho & Hm & Hv) Hx. destruct training; simpl.
  - destruct (moments_length k x). by apply batch_normalization_width.
  - by apply batch_normalization_width.
Qed.

Lemma bn_apply_length (training : bool) (k : nat) (p : bn_params) epsilon (x : mat) :
  length (bn_apply training k p epsilon x) = length x.
Proof. destruct training; apply batch_normalization_length. Qed.

Lemma madd_width (k : nat) (a b : mat) :
  rows_of_width k a → rows_of_width k b → rows_of_width k (madd a b).
Proof. apply rows_of_width_zip_with. intros. by apply length_zip_same. Qed.

Lemma mmul_width (k : nat) (a b : mat) :
  rows_of_width k a → rows_of_width k b → rows_of_width k (mmul a b).
Proof. apply rows_of_width_zip_with. intros. by apply length_zip_same. Qed.

Lemma mmap_width (g : T → T) (k : nat) (a : mat) :
  rows_of_width k a → rows_of_width k (mmap g a).
Proof. apply rows_of_width_map. intros r Hr. by rewrite length_map. Qed.

Lemma madd_row_width (k : nat) (a : mat) (v : vec) :
  length v = k → rows_of_width k a → rows_of_width k (madd_row a v).
Proof. intros Hv. apply rows_of_width_map. intros r Hr. by apply length_zip_same. Qed.

Lemma slice_width (n k : nat) (hidden : mat) :
  k < 4 → rows_of_width (4 * n) hidden → rows_of_width n (slice n k hidden).
Proof.
  intros Hk. apply rows_of_width_map. intros r Hr.
  rewrite length_take, length_drop, Hr. nia.
Qed.

Lemma slice_length (n k : nat) (hidden : mat) : length (slice n k hidden) = length hidden.
Proof. unfold slice. by rewrite length_map. Qed.



End Widths.

Section Cell.
Context {T rng : Type} {SC : Scalar T} {LB : Lib T rng}.

Local Abbreviation vec := (list T).
Local Abbreviation mat := (list (list T)).

Lemma sites_apart_cell (scope s s' : string) :
  s ≠ "" → s' ≠ "" → (∀ a a', s +:+ "/" +:+ a ≠ s' +:+ "/" +:+ a') →
  sites_apart (scoped scope s) (scoped scope s').
Proof. intros ??? a a'. by apply scoped_nested_ne. Qed.

Lemma sites_apart_xh_hh scope : sites_apart (scoped scope "xh") (scoped scope "hh").
Proof. apply sites_apart_cell; [done..|]. intros a a'. cbn. discriminate. Qed.

Lemma sites_apart_xh_c scope : sites_apart (scoped scope "xh") (scoped scope "c").
Proof. apply sites_apart_cell; [done..|]. intros a a'. cbn. discriminate. Qed.

Lemma sites_apart_hh_c scope : sites_apart (scoped scope "hh") (scoped scope "c").
Proof. apply sites_apart_cell; [done..|]. intros a a'. cbn. discriminate. Qed.

(** Executing one site leaves what the other sites hold. *)
Lemma bn_store_frame (st : gmap string (variable T)) training size site p decay x site' p' :
  sites_apart site site' →
  bn_site st site' p' →
  bn_site (bn_store training size site p decay x st) site' p'.
Proof.
  intros Hapart (Hs & Ho & Hm & Hv).
  destruct training; [|done].
  unfold bn_store, bn_trained_store.
  repeat split; do 2 (apply holds_alter_ne; [intros E; exact (Hapart _ _ (eq_sym E))|]); done.
Qed.

(** One execution of a constructed site, in either mode. *)
Lemma bn_site_run (st : gmap string (variable T)) training size site p epsilon decay xv feed :
  bn_site st site p →
  tf_cond (tf_constant training)
    (batch_statistics size xv (scoped site "scale") (scoped site "offset")
       (scoped site "pop_mean") (scoped site "pop_var") epsilon decay)
    (population_statistics xv (scoped site "scale") (scoped site "offset")
       (scoped site "pop_mean") (scoped site "pop_var") epsilon) feed st
  = Some (bn_apply training size p epsilon xv, bn_store training size site p decay xv st).
Proof.
  intros Hsite. rewrite tf_cond_constant. destruct training.
  - by apply batch_statistics_run.
  - by apply population_statistics_run.
Qed.

Lemma batch_norm_site_op x name_scope is_training epsilon decay sc
    (bs bs' : bstate T rng) (bn : mat → X T mat) :
  batch_norm x name_scope is_training epsilon decay sc bs = inr (bn, bs') →
  ∃ size, x !! 1 = Some size ∧
    bn = site_op is_training size (scoped (vs_name sc) name_scope) epsilon decay.
Proof. apply batch_norm_inv. Qed.

Lemma array_split_4 (n : nat) (hidden : mat) :
  array_split (4 * n) 4 hidden
  = [slice n 0 hidden; slice n 1 hidden; slice n 2 hidden; slice n 3 hidden].
Proof.
  unfold array_split, slice.
  replace (4 * n / 4) with n by (by rewrite Nat.mul_comm, Nat.div_mul).
  reflexivity.
Qed.

(** What a successful [__call__] returns: the operations of [call_run] on
    the variables and the three sites of the cell's scope. *)
Lemma call_inv (self : BatchNormLSTMCell) inputs scope sc (bs bs' : bstate T rng) step :
  call self inputs scope sc bs = inr (step, bs') →
  let cs := scoped (vs_name sc) (scope_or scope "BatchNormLSTMCell") in
  step = call_run self (scoped cs "W_xh") (scoped cs "W_hh") (scoped cs "bias")
           (site_op (_is_training self) (Some (4 * _num_units self)) (scoped cs "xh")
              default_epsilon default_decay)
           (site_op (_is_training self) (Some (4 * _num_units self)) (scoped cs "hh")
              default_epsilon default_decay)
           (site_op (_is_training self) (Some (_num_units self)) (scoped cs "c")
              default_epsilon default_decay).
Proof.
  unfold call, variable_scope, as_list_at.
  destruct (inputs !! 1) as [input_size|]; [|discriminate].
  unfold mbind at 1 2 3 4 5 6 7, B_bind, mret at 1 2, B_ret. simpl.
  set (sc' := VScope _ _).
  intros Hc.
  repeat match type of Hc with
  | context [get_variable ?a ?b ?c ?d ?e ?f] =>
      let E := fresh "E" in
      destruct (get_variable a b c d e f) as [?|[? ?]] eqn:E; [discriminate|];
      apply get_variable_name in E; simpl in E; subst
  end.
  repeat match type of Hc with
  | context [batch_norm ?a ?b ?c ?d ?e ?f ?g] =>
      let E := fresh "E" in
      destruct (batch_norm a b c d e f g) as [?|[? ?]] eqn:E; [discriminate|];
      apply batch_norm_site_op in E as (? & E1 & ->); simpl in E1;
      injection E1 as <-
  end.
  by injection Hc as <- _.
Qed.

(** One step on a store that holds the cell's parameters. *)
Lemma call_run_eq (self : BatchNormLSTMCell) cs w inputs c h feed
    (st : gmap string (variable T)) :
  cell_store st cs w →
  let n := _num_units self in
  let training := _is_training self in
  let new_c := lstm_new_c n training (_forget_bias self) (_activation self)
                 default_epsilon w inputs c h in
  let new_h := lstm_new_h n training (_forget_bias self) (_activation self)
                 default_epsilon w inputs c h in
  call_run self (scoped cs "W_xh") (scoped cs "W_hh") (scoped cs "bias")
    (site_op training (Some (4 * n)) (scoped cs "xh") default_epsilon default_decay)
    (site_op training (Some (4 * n)) (scoped cs "hh") default_epsilon default_decay)
    (site_op training (Some n) (scoped cs "c") default_epsilon default_decay)
    inputs (c, h) feed st
  = Some ((new_h, (new_c, new_h)),
          cell_store_after n training (_forget_bias self) (_activation self)
            default_epsilon default_decay cs w inputs c h st).
Proof.
  intros (Hwx & Hwh & Hb & Hxh & Hhh & Hc). cbv zeta.
  unfold call_run, mbind, X_bind.
  rewrite (read_mat_holds _ _ _ _ Hwx), (read_mat_holds _ _ _ _ Hwh),
    (read_vec_holds _ _ _ _ Hb).
  unfold site_op at 1. simpl default.
  rewrite (bn_site_run _ _ _ _ (p_xh w)) by done.
  unfold site_op at 1. simpl default.
  rewrite (bn_site_run _ _ _ _ (p_hh w))
    by (apply bn_store_frame; [apply sites_apart_xh_hh|done]).
  rewrite array_split_4.
  unfold site_op. simpl default.
  rewrite (bn_site_run _ _ _ _ (p_c w)).
  - reflexivity.
  - apply bn_store_frame; [apply sites_apart_hh_c|].
    apply bn_store_frame; [apply sites_apart_xh_c|done].
Qed.

Ltac solve_length :=
  repeat first
    [ rewrite length_map | rewrite slice_length | rewrite bn_apply_length
    | rewrite matmul_length | rewrite length_zip_with_l_eq by solve_length ];
  congruence.

(** The recurrence of one step.  With the defaults of [__init__] the
    activation is tanh and the forget bias 1.0.  On a store that holds the
    cell's parameters with their declared shapes, for a batch [x] of the
    static shape of [inputs] whose rows have as many entries as [W_xh] has
    rows, and a state [(c, h)] of width [num_units] with one row per row of
    [x], one execution of what
    [__call__] constructs computes, with
    [hidden = BN (x · W_xh) + BN (h · W_hh) + bias] and [(i, j, f, o)] the
    four consecutive slices of [hidden],
    [new_c = c · sigma (f + forget_bias) + sigma i · phi j] and
    [new_h = phi (BN new_c) · sigma o], and returns [new_h] together with
    the state [(new_c, new_h)], which again has width [num_units] and one
    row per row of [x], as the next step needs.  On these shapes every
    product, sum and elementwise product of the source is between operands
    that fit, so nothing is broadcast and nothing is refused. *)
Theorem call_computes_lstm_recurrence
    (self : BatchNormLSTMCell) inputs scope sc (bs bs' : bstate T rng) step :
  call self inputs scope sc bs = inr (step, bs') →
  (∀ k, _activation (BatchNormLSTMCell_default k) = stanh ∧
        _forget_bias (BatchNormLSTMCell_default k) = sconst 1) ∧
  ∀ (st : gmap string (variable T)) w x c h feed k,
    cell_store st (scoped (vs_name sc) (scope_or scope "BatchNormLSTMCell")) w →
    let n := _num_units self in
    cell_sized k n w →
    has_static_shape inputs k x →
    is_matrix (length x) n c →
    is_matrix (length x) n h →
    let sigma := ssigmoid in
    let phi := _activation self in
    let BN := bn_apply (_is_training self) in
    let hidden :=
      madd_row (madd (BN (4 * n) (p_xh w) default_epsilon (matmul (4 * n) x (p_W_xh w)))
                     (BN (4 * n) (p_hh w) default_epsilon (matmul (4 * n) h (p_W_hh w))))
               (p_bias w) in
    let i := slice n 0 hidden in
    let j := slice n 1 hidden in
    let f := slice n 2 hidden in
    let o := slice n 3 hidden in
    let new_c :=
      madd (mmul c (mmap sigma (madd_scalar f (_forget_bias self))))
           (mmul (mmap sigma i) (mmap phi j)) in
    let new_h := mmul (mmap phi (BN n (p_c w) default_epsilon new_c)) (mmap sigma o) in
    (∃ st', step x (c, h) feed st = Some ((new_h, (new_c, new_h)), st')) ∧
    is_matrix (length x) n new_c ∧ is_matrix (length x) n new_h.
Proof.
  intros Hcall. split; [done|].
  intros st w x c h feed k Hstore n (_ & _ & Hbias & Hxh & Hhh & Hpc)
    [_ Hx] [Hlc Hwc] [Hlh Hwh].
  cbv zeta.
  apply call_inv in Hcall as ->.
  split; [eexists; by rewrite (call_run_eq self _ w)|].
  fold (lstm_hidden n (_is_training self) default_epsilon w x h).
  set (hidden := lstm_hidden n (_is_training self) default_epsilon w x h).
  assert (Hhw : rows_of_width (4 * n) hidden).
  { apply madd_row_width; [done|].
    apply madd_width; apply bn_apply_width; try done; apply matmul_width. }
  assert (Hhl : length hidden = length x).
  { unfold hidden, lstm_hidden, madd_row, madd. solve_length. }
  assert (Hi : rows_of_width n (slice n 0 hidden)) by (apply slice_width; [lia|done]).
  assert (Hj : rows_of_width n (slice n 1 hidden)) by (apply slice_width; [lia|done]).
  assert (Hf : rows_of_width n (slice n 2 hidden)) by (apply slice_width; [lia|done]).
  assert (Ho : rows_of_width n (slice n 3 hidden)) by (apply slice_width; [lia|done]).
  set (new_c := madd _ _).
  assert (Hcw : rows_of_width n new_c).
  { apply madd_width; apply mmul_width; try done; by repeat apply mmap_width. }
  assert (Hcl : length new_c = length x).
  { unfold new_c, madd, mmul, mmap, madd_scalar, mmap. solve_length. }
  split; [done|]. split.
  - unfold mmul, mmap. solve_length.
  - apply mmul_width; apply mmap_width; [|done]. by apply bn_apply_width.
Qed.


End Cell.

(** *** The cell theorems at a concrete cell *)

Lemma cell_built_succeeds :
  Examples.cell_built = inr (Examples.cell_step, BState Examples.cell_graph []).
Proof.
  assert (Hseed : match Examples.cell_built with
                  | inr (_, bs) => Some (np_seed bs)
                  | inl _ => None
                  end = Some [])
    by (vm_compute; reflexivity).
  unfold Examples.cell_step, Examples.cell_graph.
  destruct Examples.cell_built as [e|[step [g s]]]; [discriminate|].
  simpl in *. by injection Hseed as ->.
Qed.

Lemma cell_graph_store :
  cell_store Examples.cell_graph "BatchNormLSTMCell" Examples.cell_w.
Proof. repeat split; vm_compute; reflexivity. Qed.

Lemma cell_graph_sized : cell_sized 2 1 Examples.cell_w.
Proof.
  unfold cell_sized, is_matrix, bn_sized, rows_of_width.
  repeat split; try (vm_compute; reflexivity);
    (assert (E : ∀ (m : list (list Q)) k,
               forallb (λ r, Nat.eqb (length r) k) m = true →
               Forall (λ r, length r = k) m)
       by (intros m k Hm; apply Forall_forall; intros r Hr;
           rewrite forallb_forall in Hm; apply Nat.eqb_eq, Hm;
           by apply list_elem_of_In));
    apply E; vm_compute; reflexivity.
Qed.

Lemma call_computes_lstm_recurrence_witness :
  Examples.cell_built = inr (Examples.cell_step, BState Examples.cell_graph []) ∧
  cell_store Examples.cell_graph "BatchNormLSTMCell" Examples.cell_w ∧
  cell_sized 2 1 Examples.cell_w ∧
  has_static_shape [None; Some 2] 2 Examples.cell_x ∧
  is_matrix (length Examples.cell_x) 1 Examples.cell_c ∧
  is_matrix (length Examples.cell_x) 1 Examples.cell_h ∧
  ∃ st' : gmap string (variable Q),
    Examples.cell_step Examples.cell_x (Examples.cell_c, Examples.cell_h) ∅
      Examples.cell_graph
    = Some (([[7688150247533334486 # 45000690617830317835];
              [7780038751864854486 # 45230411878659117835]]%Q,
             ([[-8648402 # 35876009]; [-7047602 # 35876009]]%Q,
              [[7688150247533334486 # 45000690617830317835];
               [7780038751864854486 # 45230411878659117835]]%Q)), st').
Proof.
  pose proof cell_built_succeeds as Hb.
  pose proof cell_graph_store as Hs.
  pose proof cell_graph_sized as Hz.
  assert (Hx : has_static_shape [None; Some 2] 2 Examples.cell_x)
    by (split; [reflexivity|repeat constructor]).
  assert (Hc : is_matrix (length Examples.cell_x) 1 Examples.cell_c)
    by (split; [reflexivity|repeat constructor]).
  assert (Hh : is_matrix (length Examples.cell_x) 1 Examples.cell_h)
    by (split; [reflexivity|repeat constructor]).
  do 6 (split; [assumption|]).
  destruct (call_computes_lstm_recurrence Examples.cell [None; Some 2] None
              Rational.root _ _ _ Hb) as [_ Hrun].
  destruct (Hrun Examples.cell_graph Examples.cell_w Examples.cell_x
              Examples.cell_c Examples.cell_h ∅ 2 Hs Hz Hx Hc Hh) as [[st' Hst'] _].
  exists st'. rewrite Hst'. vm_compute. reflexivity.
Defined.


(** ** What an execution assigns *)

Section Effects.
Context {T rng : Type} {SC : Scalar T} {LB : Lib T rng}.

Local Abbreviation vec := (list T).
Local Abbreviation mat := (list (list T)).

(** An assignment changes no declaration. *)
Lemma set_value_declaration (st : gmap string (variable T)) (v : value T) ref name :
  var_shape <$> alter (set_value v) ref st !! name = var_shape <$> st !! name ∧
  var_trainable <$> alter (set_value v) ref st !! name = var_trainable <$> st !! name.
Proof.
  destruct (decide (ref = name)) as [->|Hne].
  - rewrite lookup_alter_eq. by destruct (st !! name).
  - by rewrite lookup_alter_ne.
Qed.

Lemma bn_store_declaration (st : gmap string (variable T))
    training size site p decay x name :
  var_shape <$> bn_store training size site p decay x st !! name
    = var_shape <$> st !! name ∧
  var_trainable <$> bn_store training size site p decay x st !! name
    = var_trainable <$> st !! name.
Proof.
  destruct training; [|done]. unfold bn_store, bn_trained_store.
  split.
  - by rewrite !(proj1 (set_value_declaration _ _ _ _)).
  - by rewrite !(proj2 (set_value_declaration _ _ _ _)).
Qed.

Lemma bn_store_other (st : gmap string (variable T))
    training size site p decay x name :
  name ≠ scoped site "pop_mean" → name ≠ scoped site "pop_var" →
  bn_store training size site p decay x st !! name = st !! name.
Proof.
  intros Hm Hv. destruct training; [|done]. unfold bn_store, bn_trained_store.
  by rewrite !lookup_alter_ne.
Qed.

(** A training-mode execution of a constructed [batch_norm] assigns
    [pop_mean] and [pop_var] of its own scope and nothing else: every other
    variable keeps its value, and every variable its shape and its
    trainable flag. *)
Theorem batch_norm_training_assigns_only_running_estimates
    x name_scope epsilon decay sc (bs bs' : bstate T rng) (bn : mat → X T mat) :
  batch_norm x name_scope true epsilon decay sc bs = inr (bn, bs') →
  ∀ (st st' : gmap string (variable T)) xv feed r,
    bn xv feed st = Some (r, st') →
    let site := scoped (vs_name sc) name_scope in
    (∀ name, name ≠ scoped site "pop_mean" → name ≠ scoped site "pop_var" →
       st' !! name = st !! name) ∧
    (∀ name, var_shape <$> st' !! name = var_shape <$> st !! name ∧
             var_trainable <$> st' !! name = var_trainable <$> st !! name).
Proof.
  intros Hb st st' xv feed r Hrun site.
  apply batch_norm_inv in Hb as (size & _ & ->).
  rewrite tf_cond_constant in Hrun. fold site in Hrun.
  unfold batch_statistics in Hrun.
  destruct (moments _ xv) as [batch_mean batch_var].
  unfold mbind, X_bind, read_vec, tf_assign, mret, X_ret in Hrun.
  repeat (case_match; simplify_eq/=).
  split.
  - intros name Hm Hv. by rewrite !lookup_alter_ne.
  - intros name. split.
    + by rewrite !(proj1 (set_value_declaration _ _ _ _)).
    + by rewrite !(proj2 (set_value_declaration _ _ _ _)).
Qed.

(** One step of a constructed cell assigns, in training mode, the running
    estimates of its three sites and nothing else (the weights, the bias,
    the scales and the offsets keep their values); in inference mode it
    returns the store it was given; in either mode every variable keeps its
    shape and its trainable flag. *)
Theorem call_assigns_only_running_estimates
    (self : BatchNormLSTMCell) inputs scope sc (bs bs' : bstate T rng) step :
  call self inputs scope sc bs = inr (step, bs') →
  ∀ (st st' : gmap string (variable T)) w x c h feed r,
    let cs := scoped (vs_name sc) (scope_or scope "BatchNormLSTMCell") in
    cell_store st cs w →
    step x (c, h) feed st = Some (r, st') →
    (_is_training self = false → st' = st) ∧
    (∀ name, name ∉ running_estimates cs → st' !! name = st !! name) ∧
    (∀ name, var_shape <$> st' !! name = var_shape <$> st !! name ∧
             var_trainable <$> st' !! name = var_trainable <$> st !! name).
Proof.
  intros Hcall st st' w x c h feed r cs Hstore Hrun.
  apply call_inv in Hcall as ->. fold cs in Hrun.
  rewrite (call_run_eq self cs w) in Hrun by done.
  injection Hrun as _ <-. unfold cell_store_after.
  split; [by intros ->|]. split.
  - intros name Hname. unfold running_estimates in Hname.
    rewrite !not_elem_of_cons in Hname.
    destruct Hname as (? & ? & ? & ? & ? & ? & _).
    by rewrite !bn_store_other.
  - intros name. split.
    + by rewrite !(proj1 (bn_store_declaration _ _ _ _ _ _ _ _)).
    + by rewrite !(proj2 (bn_store_declaration _ _ _ _ _ _ _ _)).
Qed.

End Effects.

Lemma batch_norm_training_assigns_only_running_estimates_witness :
  Examples.built true
    = inr (Examples.op true, BState (Examples.graph true) []) ∧
  ∃ r st',
    Examples.op true Examples.batch ∅ (Examples.graph true) = Some (r, st') ∧
    st' !! "bn/scale" = Examples.graph true !! "bn/scale" ∧
    st' !! "bn/offset" = Examples.graph true !! "bn/offset" ∧
    var_trainable <$> st' !! "bn/pop_mean" = Some false.
Proof.
  pose proof (built_succeeds true) as Hb.
  split; [exact Hb|].
  destruct (Examples.op true Examples.batch ∅ (Examples.graph true))
    as [[r st']|] eqn:Hrun.
  2: { apply (f_equal (λ o, match o with Some _ => true | None => false end)) in Hrun.
       vm_compute in Hrun. discriminate. }
  exists r, st'. split; [reflexivity|].
  destruct (batch_norm_training_assigns_only_running_estimates
              Examples.x_shape "bn" default_epsilon default_decay Rational.root
              _ _ _ Hb _ _ _ _ _ Hrun) as [Hother Hdecl].
  split; [by apply Hother|]. split; [by apply Hother|].
  rewrite (proj2 (Hdecl "bn/pop_mean")). vm_compute. reflexivity.
Defined.

Lemma call_assigns_only_running_estimates_witness :
  Examples.cell_built = inr (Examples.cell_step, BState Examples.cell_graph []) ∧
  cell_store Examples.cell_graph "BatchNormLSTMCell" Examples.cell_w ∧
  ∃ r st',
    Examples.cell_step Examples.cell_x (Examples.cell_c, Examples.cell_h) ∅
      Examples.cell_graph = Some (r, st') ∧
    st' !! "BatchNormLSTMCell/W_hh" = Examples.cell_graph !! "BatchNormLSTMCell/W_hh" ∧
    st' !! "BatchNormLSTMCell/xh/scale"
      = Examples.cell_graph !! "BatchNormLSTMCell/xh/scale".
Proof.
  pose proof cell_built_succeeds as Hb.
  pose proof cell_graph_store as Hs.
  split; [exact Hb|]. split; [exact Hs|].
  destruct (Examples.cell_step Examples.cell_x (Examples.cell_c, Examples.cell_h) ∅
              Examples.cell_graph) as [[r st']|] eqn:Hrun.
  2: { apply (f_equal (λ o, match o with Some _ => true | None => false end)) in Hrun.
       vm_compute in Hrun. discriminate. }
  exists r, st'. split; [reflexivity|].
  destruct (call_assigns_only_running_estimates Examples.cell [None; Some 2] None
              Rational.root _ _ _ Hb _ _ _ _ _ _ _ _ Hs Hrun) as (_ & Hother & _).
  split; apply Hother; intros Hin; unfold running_estimates in Hin;
    repeat (apply elem_of_cons in Hin as [Hin|Hin]; [vm_compute in Hin; discriminate Hin|]);
    by apply elem_of_nil in Hin.
Defined.

(** ** Construction: creation, sharing and errors *)

Section Construction.
Context {T rng : Type} {SC : Scalar T} {LB : Lib T rng}.

Local Abbreviation vec := (list T).
Local Abbreviation mat := (list (list T)).

Lemma shape_compatible_fully_defined (shape : list (option nat)) (dims : list nat) :
  fully_defined shape = Some dims → shape_compatible shape dims = true.
Proof.
  unfold fully_defined, shape_compatible. revert dims.
  induction shape as [|d shape IH]; intros dims Hd.
  - by injection Hd as <-.
  - cbn in Hd. destruct d as [n|]; [|discriminate]. cbn in Hd.
    destruct (mapM (λ d, d) shape) as [dims'|] eqn:E; [|discriminate].
    cbn in Hd. injection Hd as <-.
    specialize (IH dims' eq_refl).
    apply andb_true_iff in IH as [Hl Hf].
    apply bool_decide_eq_true in Hl.
    apply andb_true_iff. split.
    + apply bool_decide_eq_true. simpl. by rewrite Hl.
    + simpl. by rewrite Nat.eqb_refl.
Qed.

(** A successful [tf.get_variable] leaves the variable in the graph, with a
    shape the request is compatible with. *)
Lemma get_variable_declares name shape init trainable sc (bs bs' : bstate T rng) full :
  get_variable name shape init trainable sc bs = inr (full, bs') →
  declared (graph_vars bs') (scoped (vs_name sc) name) shape.
Proof.
  unfold get_variable, declared. intros Hg.
  destruct (graph_vars bs !! _) as [var|] eqn:Hvar.
  - destruct (vs_reuse sc); [|discriminate].
    destruct (shape_compatible shape (var_shape var)) eqn:Hc; [|discriminate].
    injection Hg as _ <-. eauto.
  - destruct (vs_reuse sc); [discriminate|].
    destruct (fully_defined shape) as [dims|] eqn:Hd; [|discriminate].
    match type of Hg with context [match ?e with inl _ => _ | inr _ => _ end] =>
      destruct e as [e'|[v seed']]; [discriminate|] end.
    injection Hg as _ <-. simpl. eexists. rewrite lookup_insert_eq.
    split; [done|]. by apply shape_compatible_fully_defined.
Qed.

(** ... and keeps every variable the graph had. *)
Lemma get_variable_keeps name shape init trainable sc (bs bs' : bstate T rng) full n s :
  get_variable name shape init trainable sc bs = inr (full, bs') →
  declared (graph_vars bs) n s → declared (graph_vars bs') n s.
Proof.
  unfold get_variable, declared. intros Hg (var & Hn & Hc).
  destruct (graph_vars bs !! scoped (vs_name sc) name) as [var'|] eqn:Hvar.
  - destruct (vs_reuse sc); [|discriminate].
    destruct (shape_compatible shape (var_shape var')); [|discriminate].
    injection Hg as _ <-. eauto.
  - destruct (vs_reuse sc); [discriminate|].
    destruct (fully_defined shape) as [dims|]; [|discriminate].
    match type of Hg with context [match ?e with inl _ => _ | inr _ => _ end] =>
      destruct e as [e'|[v seed']]; [discriminate|] end.
    injection Hg as _ <-. simpl. exists var. split; [|done].
    rewrite lookup_insert_ne; [done|]. intros <-. congruence.
Qed.

(** Under reuse, a declared variable is returned and nothing is created. *)
Lemma get_variable_reuse name shape init trainable sc (bs : bstate T rng) :
  vs_reuse sc = true →
  declared (graph_vars bs) (scoped (vs_name sc) name) shape →
  get_variable name shape init trainable sc bs = inr (scoped (vs_name sc) name, bs).
Proof.
  unfold get_variable, declared. intros -> (var & -> & ->). done.
Qed.

(** Without reuse, an existing variable is an error. *)
Lemma get_variable_exists name shape init trainable sc (bs : bstate T rng) s :
  vs_reuse sc = false →
  declared (graph_vars bs) (scoped (vs_name sc) name) s →
  get_variable name shape init trainable sc bs
  = inl (ValueError "Variable already exists, disallowed").
Proof.
  unfold get_variable, declared. intros -> (var & -> & _). done.
Qed.

(** Destructing the next [tf.get_variable] of a successful construction. *)
Tactic Notation "next_variable" hyp(H) "as" ident(E) :=
  match type of H with
  | context [get_variable ?a ?b ?c ?d ?e ?f] =>
      destruct (get_variable a b c d e f) as [?|[? ?]] eqn:E; [discriminate|]
  end.

Lemma batch_norm_declares x name_scope is_training epsilon decay sc
    (bs bs' : bstate T rng) (bn : mat → X T mat) :
  batch_norm x name_scope is_training epsilon decay sc bs = inr (bn, bs') →
  ∃ size, x !! 1 = Some size ∧
    site_declared (graph_vars bs') (scoped (vs_name sc) name_scope) size ∧
    (∀ n s, declared (graph_vars bs) n s → declared (graph_vars bs') n s).
Proof.
  unfold batch_norm, variable_scope, as_list_at. simpl.
  destruct (x !! 1) as [size|]; [|discriminate].
  unfold mbind, B_bind, mret, B_ret. simpl.
  set (sc' := VScope _ _). intros Hb.
  next_variable Hb as E1. next_variable Hb as E2.
  next_variable Hb as E3. next_variable Hb as E4.
  injection Hb as _ <-.
  exists size. split; [done|]. split; [repeat split|].
  - eapply get_variable_keeps; [exact E4|]. eapply get_variable_keeps; [exact E3|].
    eapply get_variable_keeps; [exact E2|]. by eapply get_variable_declares in E1.
  - eapply get_variable_keeps; [exact E4|]. eapply get_variable_keeps; [exact E3|].
    by eapply get_variable_declares in E2.
  - eapply get_variable_keeps; [exact E4|]. by eapply get_variable_declares in E3.
  - by eapply get_variable_declares in E4.
  - intros vname vshape Hn.
    eapply get_variable_keeps; [exact E4|]. eapply get_variable_keeps; [exact E3|].
    eapply get_variable_keeps; [exact E2|]. by eapply get_variable_keeps; [exact E1|].
Qed.

Lemma batch_norm_reuse x name_scope is_training epsilon decay sc (bs : bstate T rng) size :
  x !! 1 = Some size → vs_reuse sc = true →
  site_declared (graph_vars bs) (scoped (vs_name sc) name_scope) size →
  batch_norm x name_scope is_training epsilon decay sc bs
  = inr (site_op is_training size (scoped (vs_name sc) name_scope) epsilon decay, bs).
Proof.
  intros Hx Hr (H1 & H2 & H3 & H4).
  unfold batch_norm, variable_scope, as_list_at. simpl. rewrite Hx.
  unfold mbind, B_bind, mret, B_ret. simpl.
  rewrite Hr.
  rewrite !get_variable_reuse by done. reflexivity.
Qed.

Lemma site_declared_keeps (g g' : gmap string (variable T)) site size :
  (∀ n s, declared g n s → declared g' n s) →
  site_declared g site size → site_declared g' site size.
Proof. intros Hk (? & ? & ? & ?). repeat split; by apply Hk. Qed.

Lemma call_declares (self : BatchNormLSTMCell) inputs scope sc (bs bs' : bstate T rng) step :
  call self inputs scope sc bs = inr (step, bs') →
  ∃ input_size, inputs !! 1 = Some input_size ∧
    cell_declared (graph_vars bs')
      (scoped (vs_name sc) (scope_or scope "BatchNormLSTMCell"))
      input_size (_num_units self).
Proof.
  unfold call, variable_scope, as_list_at.
  destruct (inputs !! 1) as [input_size|]; [|discriminate].
  unfold mbind at 1 2 3 4 5 6 7, B_bind, mret at 1 2, B_ret. simpl.
  set (sc' := VScope _ _). intros Hc.
  next_variable Hc as E1. next_variable Hc as E2. next_variable Hc as E3.
  destruct (batch_norm _ "xh" _ _ _ _ _) as [?|[? b4]] eqn:E4; [discriminate|].
  destruct (batch_norm _ "hh" _ _ _ _ _) as [?|[? b5]] eqn:E5; [discriminate|].
  destruct (batch_norm _ "c" _ _ _ _ _) as [?|[? b6]] eqn:E6; [discriminate|].
  injection Hc as _ <-.
  apply batch_norm_declares in E4 as (s4 & X4 & D4 & K4).
  apply batch_norm_declares in E5 as (s5 & X5 & D5 & K5).
  apply batch_norm_declares in E6 as (s6 & X6 & D6 & K6).
  simpl in X4, X5, X6. injection X4 as <-. injection X5 as <-. injection X6 as <-.
  exists input_size. split; [done|].
  split; [|split; [|split; [|split; [|split]]]].
  - apply K6, K5, K4. eapply get_variable_keeps; [exact E3|].
    eapply get_variable_keeps; [exact E2|]. by eapply get_variable_declares in E1.
  - apply K6, K5, K4. eapply get_variable_keeps; [exact E3|].
    by eapply get_variable_declares in E2.
  - apply K6, K5, K4. by eapply get_variable_declares in E3.
  - apply (site_declared_keeps (graph_vars b5)); [done|].
    by apply (site_declared_keeps (graph_vars b4)).
  - by apply (site_declared_keeps (graph_vars b5)).
  - done.
Qed.

Lemma call_reuse (self : BatchNormLSTMCell) inputs scope sc (bs : bstate T rng) input_size :
  inputs !! 1 = Some input_size →
  match _reuse self with Some true => true | _ => vs_reuse sc end = true →
  let cs := scoped (vs_name sc) (scope_or scope "BatchNormLSTMCell") in
  cell_declared (graph_vars bs) cs input_size (_num_units self) →
  call self inputs scope sc bs
  = inr (call_run self (scoped cs "W_xh") (scoped cs "W_hh") (scoped cs "bias")
           (site_op (_is_training self) (Some (4 * _num_units self)) (scoped cs "xh")
              default_epsilon default_decay)
           (site_op (_is_training self) (Some (4 * _num_units self)) (scoped cs "hh")
              default_epsilon default_decay)
           (site_op (_is_training self) (Some (_num_units self)) (scoped cs "c")
              default_epsilon default_decay), bs).
Proof.
  intros Hx Hr cs (D1 & D2 & D3 & D4 & D5 & D6).
  unfold call, variable_scope, as_list_at. rewrite Hx.
  unfold mbind at 1 2 3 4 5 6 7, B_bind, mret at 1 2, B_ret. simpl.
  rewrite Hr. fold cs.
  rewrite !get_variable_reuse by done.
  rewrite (batch_norm_reuse _ "xh" _ _ _ _ _ (Some (4 * _num_units self))) by done.
  rewrite (batch_norm_reuse _ "hh" _ _ _ _ _ (Some (4 * _num_units self))) by done.
  rewrite (batch_norm_reuse _ "c" _ _ _ _ _ (Some (_num_units self))) by done.
  reflexivity.
Qed.

(** Calling a cell again in the scope of an earlier successful call.  With
    reuse in force (the cell's [reuse] is [True], or the surrounding scope
    reuses) the call succeeds, creates no variable and constructs the same
    operations on the same variables: the parameters are shared.  Without
    reuse it raises the error of a variable that already exists. *)
Theorem call_again_shares_or_fails
    (self : BatchNormLSTMCell) inputs scope sc (bs bs' : bstate T rng) step :
  call self inputs scope sc bs = inr (step, bs') →
  ∀ sc2 reuse,
    vs_name sc2 = vs_name sc →
    call (with_reuse self reuse) inputs scope sc2 bs'
    = if match reuse with Some true => true | _ => vs_reuse sc2 end
      then inr (step, bs')
      else inl (ValueError "Variable already exists, disallowed").
Proof.
  intros Hcall sc2 reuse Hname.
  pose proof (call_declares _ _ _ _ _ _ _ Hcall) as (input_size & Hx & Hd).
  apply call_inv in Hcall as ->. cbv zeta.
  destruct (match reuse with Some true => true | _ => vs_reuse sc2 end) eqn:Hr.
  - rewrite (call_reuse (with_reuse self reuse) inputs scope sc2 bs' input_size);
      [by rewrite Hname|done|done|by rewrite Hname].
  - destruct Hd as (D1 & _).
    unfold call, variable_scope, as_list_at. rewrite Hx.
    unfold mbind at 1, B_bind. simpl. rewrite Hr.
    unfold mbind at 1, B_bind.
    rewrite (get_variable_exists "W_xh" _ _ _ _ _ [input_size; Some (4 * _num_units self)]);
      [done|done|by rewrite Hname].
Qed.

(** Constructing a cell, without reuse, on an input whose width is not
    statically known raises a [ValueError] and returns no operations; on an
    input of rank below two it raises the [IndexError] of [as_list()[1]]. *)
Theorem call_needs_static_input_width
    (self : BatchNormLSTMCell) inputs scope sc (bs : bstate T rng) :
  (inputs !! 1 = None →
   call self inputs scope sc bs = inl (IndexError "list index out of range")) ∧
  (inputs !! 1 = Some None →
   match _reuse self with Some true => true | _ => vs_reuse sc end = false →
   ∃ msg, call self inputs scope sc bs = inl (ValueError msg)).
Proof.
  split.
  - intros Hx. unfold call, variable_scope, as_list_at. by rewrite Hx.
  - intros Hx Hr. unfold call, variable_scope, as_list_at. rewrite Hx.
    unfold mbind at 1, B_bind. simpl. rewrite Hr.
    unfold mbind at 1, B_bind. unfold get_variable at 1. simpl.
    destruct (graph_vars bs !! _); eauto.
Qed.

End Construction.

Lemma call_again_shares_or_fails_witness :
  Examples.cell_built = inr (Examples.cell_step, BState Examples.cell_graph []) ∧
  call (with_reuse Examples.cell (Some true)) [None; Some 2] None Rational.root
    (BState Examples.cell_graph [])
  = inr (Examples.cell_step, BState Examples.cell_graph []) ∧
  call (with_reuse Examples.cell None) [None; Some 2] None Rational.root
    (BState Examples.cell_graph [])
  = inl (ValueError "Variable already exists, disallowed").
Proof.
  pose proof cell_built_succeeds as Hb.
  split; [exact Hb|]. split.
  - exact (call_again_shares_or_fails Examples.cell [None; Some 2] None
             Rational.root _ _ _ Hb Rational.root (Some true) eq_refl).
  - exact (call_again_shares_or_fails Examples.cell [None; Some 2] None
             Rational.root _ _ _ Hb Rational.root None eq_refl).
Defined.

Lemma call_needs_static_input_width_witness :
  ([Some 3] : list (option nat)) !! 1 = None ∧
  call Examples.cell [Some 3] None Rational.root (Rational.fresh Examples.cell_seed)
  = inl (IndexError "list index out of range") ∧
  ([None; None] : list (option nat)) !! 1 = Some None ∧
  ∃ msg,
    call Examples.cell [None; None] None Rational.root
      (Rational.fresh Examples.cell_seed) = inl (ValueError msg).
Proof.
  split; [reflexivity|]. split.
  - exact (proj1 (call_needs_static_input_width Examples.cell [Some 3] None
                    Rational.root (Rational.fresh Examples.cell_seed)) eq_refl).
  - split; [reflexivity|].
    exact (proj2 (call_needs_static_input_width Examples.cell [None; None] None
                    Rational.root (Rational.fresh Examples.cell_seed))
             eq_refl eq_refl).
Defined.

(** ** The initializers *)

Section Initializers.
Context {T rng : Type} {SC : Scalar T} {LB : Lib T rng}.

Local Abbreviation vec := (list T).
Local Abbreviation mat := (list (list T)).

Lemma is_matrix_nil (k : nat) : is_matrix 0 k ([] : mat).
Proof. split; [done|constructor]. Qed.

Lemma is_matrix_cons (r k : nat) (row : vec) (m : mat) :
  length row = k → is_matrix r k m → is_matrix (S r) k (row :: m).
Proof. intros Hr [Hl Hw]. split; [by rewrite <- Hl|by constructor]. Qed.

Lemma is_matrix_inv (r k : nat) (m : mat) :
  is_matrix (S r) k m →
  ∃ row m', m = row :: m' ∧ length row = k ∧ is_matrix r k m'.
Proof.
  intros [Hl Hw]. destruct m as [|row m']; [discriminate|].
  inversion Hw; subst. exists row, m'. repeat split; try done. by injection Hl.
Qed.

Lemma is_matrix_0_inv (k : nat) (m : mat) : is_matrix 0 k m → m = [].
Proof. intros [Hl _]. by destruct m. Qed.

Lemma is_matrix_mmap (g : T → T) (r k : nat) (m : mat) :
  is_matrix r k m → is_matrix r k (mmap g m).
Proof.
  intros [Hl Hw]. split; [by unfold mmap; rewrite length_map|by apply mmap_width].
Qed.

Lemma is_matrix_identity (n : nat) : is_matrix n n (identity n).
Proof.
  unfold identity. split.
  - by rewrite length_map, length_seq.
  - apply Forall_map, Forall_forall. intros i _. by rewrite length_map, length_seq.
Qed.

Lemma is_matrix_full (r k : nat) (c : T) : is_matrix r k (full_mat r k c).
Proof.
  unfold full_mat. split; [by rewrite length_replicate|].
  apply Forall_replicate. by rewrite length_replicate.
Qed.

(** Reshaping a matrix to its own shape gives it back. *)
Lemma chunks_concat (r k : nat) (q : mat) : is_matrix r k q → chunks r k (concat q) = q.
Proof.
  revert q. induction r as [|r IH]; intros q Hq.
  - by rewrite (is_matrix_0_inv _ _ Hq).
  - apply is_matrix_inv in Hq as (row & q' & -> & Hrow & Hq').
    simpl. rewrite take_app_length' by done. rewrite drop_app_length' by done.
    by rewrite IH.
Qed.

Lemma length_concat_matrix (r k : nat) (q : mat) :
  is_matrix r k q → length (concat q) = r * k.
Proof.
  revert q. induction r as [|r IH]; intros q Hq.
  - by rewrite (is_matrix_0_inv _ _ Hq).
  - apply is_matrix_inv in Hq as (row & q' & -> & Hrow & Hq').
    simpl. rewrite length_app, IH by done. lia.
Qed.

Lemma shape_of_matrix (r k : nat) (q : mat) :
  is_matrix r k q → shape_of q = (r, if r is 0 then 0 else k).
Proof.
  destruct r as [|r]; intros Hq.
  - by rewrite (is_matrix_0_inv _ _ Hq).
  - apply is_matrix_inv in Hq as (row & q' & -> & Hrow & [Hl _]).
    unfold shape_of. simpl. by rewrite Hl, Hrow.
Qed.

Lemma orthogonal_factor :
  normal_has_shape → svd_has_shapes →
  ∀ r k seed,
    let a := (np_random_normal (r, k) seed).1 in
    let seed' := (np_random_normal (r, k) seed).2 in
    let u := (np_linalg_svd a).1.1 in
    let v := (np_linalg_svd a).2 in
    let q := if decide (k ≤ r) then u else v in
    orthogonal [r; k] seed = inr (Mat q, seed') ∧ is_matrix r k q.
Proof.
  intros Hnormal Hsvd r k seed. cbv zeta.
  unfold orthogonal. simpl foldr. rewrite Nat.mul_1_r.
  pose proof (Hnormal r k seed) as Ha.
  destruct (np_random_normal (r, k) seed) as [a seed']. simpl in *.
  pose proof (Hsvd r k a Ha) as [Hu Hv].
  destruct (np_linalg_svd a) as [[u s] v]. simpl in *.
  assert (Hq : is_matrix r k (if decide (k ≤ r) then u else v)).
  { destruct (decide (k ≤ r)); [|by rewrite Nat.min_l in Hv by lia].
    by rewrite Nat.min_r in Hu by lia. }
  assert (Hsel : (if bool_decide (shape_of u = (r, k)) then u else v)
                 = if decide (k ≤ r) then u else v).
  { rewrite (shape_of_matrix _ _ _ Hu).
    destruct (decide (k ≤ r)).
    - rewrite bool_decide_eq_true_2; [done|].
      destruct r; [by replace k with 0 by lia|]. by rewrite Nat.min_r by lia.
    - rewrite bool_decide_eq_false_2; [done|].
      destruct r; [intros [= <-]; lia|]. rewrite Nat.min_l by lia.
      intros [= <-]. lia. }
  rewrite Hsel. split; [|done].
  unfold reshape. simpl foldr. rewrite Nat.mul_1_r.
  rewrite bool_decide_eq_true_2 by (by apply length_concat_matrix).
  by rewrite chunks_concat.
Qed.

(** Assigning a block of columns, row by row. *)
Lemma set_cols_nil (a b : nat) : set_cols a b ([] : mat) [] = inr [].
Proof. reflexivity. Qed.

Lemma set_cols_cons (a b : nat) (s r : vec) (m t t' : mat) :
  length s = b `min` length r - a `min` length r →
  set_cols a b m t = inr t' →
  set_cols a b (s :: m) (r :: t) = inr ((take a r ++ s ++ drop (a `max` b) r) :: t').
Proof.
  unfold set_cols. intros Hs Hm.
  destruct (bool_decide (length m = length t) && forallb _ (zip t m)) eqn:E;
    [|discriminate].
  injection Hm as <-.
  apply andb_true_iff in E as [El Ef]. apply bool_decide_eq_true in El.
  simpl zip. simpl forallb. rewrite Ef.
  rewrite bool_decide_eq_true_2 by (simpl; lia).
  simpl. by rewrite (proj2 (Nat.eqb_eq _ _) Hs).
Qed.

(** Replacing the middle of a row. *)
Lemma set_row_app (a b : nat) (P Q R s : vec) :
  a = length P → b = a + length Q →
  take a (P ++ Q ++ R) ++ s ++ drop (a `max` b) (P ++ Q ++ R) = P ++ s ++ R.
Proof.
  intros -> ->. rewrite Nat.max_r by lia.
  rewrite take_app_length. f_equal. f_equal.
  rewrite app_assoc. rewrite drop_app_length'; [done|]. by rewrite length_app.
Qed.

(** One row of the matrix the initializer assembles: the lines 92-96 on a
    row of zeros. *)
Lemma assemble_row (n : nat) (m q1 q2 q3 : vec) :
  length m = n → length q1 = n → length q2 = n → length q3 = n →
  let r0 := replicate (4 * n) szero in
  let r1 := take n r0 ++ m ++ drop (n `max` (n * 2)) r0 in
  let r2 := take 0 r1 ++ q1 ++ drop (0 `max` n) r1 in
  let r3 := take (n * 2) r2 ++ q2 ++ drop ((n * 2) `max` (n * 3)) r2 in
  let r4 := take (n * 3) r3 ++ q3 ++ drop ((n * 3) `max` (4 * n)) r3 in
  r1 = replicate n szero ++ m ++ replicate n szero ++ replicate n szero ∧
  r2 = q1 ++ m ++ replicate n szero ++ replicate n szero ∧
  r3 = q1 ++ m ++ q2 ++ replicate n szero ∧
  r4 = q1 ++ m ++ q2 ++ q3.
Proof.
  intros Hm H1 H2 H3. cbv zeta.
  set (z := replicate n (szero : T)).
  assert (Hz : length z = n) by apply length_replicate.
  assert (E0 : replicate (4 * n) (szero : T) = z ++ z ++ z ++ z).
  { replace (4 * n) with (n + (n + (n + n))) by lia.
    by rewrite !replicate_add. }
  rewrite E0.
  assert (E1 : take n (z ++ z ++ z ++ z) ++ m ++ drop (n `max` (n * 2)) (z ++ z ++ z ++ z)
               = z ++ m ++ z ++ z).
  { apply set_row_app; lia. }
  rewrite E1. split; [done|].
  assert (E2 : take 0 (z ++ m ++ z ++ z) ++ q1 ++ drop (0 `max` n) (z ++ m ++ z ++ z)
               = q1 ++ m ++ z ++ z).
  { apply (set_row_app 0 n [] z (m ++ z ++ z) q1); simpl; lia. }
  rewrite E2. split; [done|].
  assert (E3 : take (n * 2) (q1 ++ m ++ z ++ z) ++ q2
                 ++ drop ((n * 2) `max` (n * 3)) (q1 ++ m ++ z ++ z)
               = q1 ++ m ++ q2 ++ z).
  { replace (q1 ++ m ++ z ++ z) with ((q1 ++ m) ++ z ++ z) by (by rewrite <- app_assoc).
    rewrite (set_row_app (n * 2) (n * 3) (q1 ++ m) z z q2);
      [by rewrite <- app_assoc|rewrite length_app; lia|lia]. }
  rewrite E3. split; [done|].
  replace (q1 ++ m ++ q2 ++ z) with ((q1 ++ m ++ q2) ++ z ++ [])
    by (by rewrite app_nil_r, <- !app_assoc).
  rewrite (set_row_app (n * 3) (4 * n) (q1 ++ m ++ q2) z [] q3);
    [by rewrite app_nil_r, <- !app_assoc|rewrite !length_app; lia|lia].
Qed.

(** The four assignments of lines 93-96 on the zero matrix of [k] rows. *)
Lemma assemble_blocks (n k : nat) (M Q1 Q2 Q3 : mat) :
  is_matrix k n M → is_matrix k n Q1 → is_matrix k n Q2 → is_matrix k n Q3 →
  ∃ t1 t2 t3,
    set_cols n (n * 2) M (full_mat k (4 * n) szero) = inr t1 ∧
    set_cols 0 n Q1 t1 = inr t2 ∧
    set_cols (n * 2) (n * 3) Q2 t2 = inr t3 ∧
    set_cols (n * 3) (4 * n) Q3 t3 = inr (side_by_side Q1 M Q2 Q3).
Proof.
  revert M Q1 Q2 Q3. induction k as [|k IH]; intros M Q1 Q2 Q3 HM H1 H2 H3.
  - rewrite (is_matrix_0_inv _ _ HM), (is_matrix_0_inv _ _ H1),
      (is_matrix_0_inv _ _ H2), (is_matrix_0_inv _ _ H3).
    exists [], [], []. by repeat split.
  - apply is_matrix_inv in HM as (m & M' & -> & Lm & HM).
    apply is_matrix_inv in H1 as (q1 & Q1' & -> & L1 & H1).
    apply is_matrix_inv in H2 as (q2 & Q2' & -> & L2 & H2).
    apply is_matrix_inv in H3 as (q3 & Q3' & -> & L3 & H3).
    destruct (IH M' Q1' Q2' Q3' HM H1 H2 H3) as (t1 & t2 & t3 & E1 & E2 & E3 & E4).
    destruct (assemble_row n m q1 q2 q3 Lm L1 L2 L3) as (R1 & R2 & R3 & R4).
    assert (Lz : length (replicate n (szero : T)) = n) by apply length_replicate.
    eexists _, _, _.
    change (full_mat (S k) (4 * n) (szero : T))
      with (replicate (4 * n) (szero : T) :: full_mat k (4 * n) szero).
    split; [|split; [|split]].
    + apply set_cols_cons; [|exact E1]. rewrite length_replicate. lia.
    + apply set_cols_cons; [|exact E2]. rewrite R1, !length_app. lia.
    + apply set_cols_cons; [|exact E3]. rewrite R2, !length_app. lia.
    + change (side_by_side (q1 :: Q1') (m :: M') (q2 :: Q2') (q3 :: Q3'))
        with ((q1 ++ m ++ q2 ++ q3) :: side_by_side Q1' M' Q2' Q3').
      rewrite <- R4.
      apply set_cols_cons; [|exact E4]. rewrite R3, !length_app. lia.
Qed.

Lemma slice_cons (n j : nat) (r : vec) (t : mat) :
  slice n j (r :: t) = take n (drop (j * n) r) :: slice n j t.
Proof. reflexivity. Qed.

(** The slices of four blocks laid side by side are the blocks. *)
Lemma slices_of_side_by_side (n k : nat) (A B C D : mat) :
  is_matrix k n A → is_matrix k n B → is_matrix k n C → is_matrix k n D →
  is_matrix k (4 * n) (side_by_side A B C D) ∧
  slice n 0 (side_by_side A B C D) = A ∧ slice n 1 (side_by_side A B C D) = B ∧
  slice n 2 (side_by_side A B C D) = C ∧ slice n 3 (side_by_side A B C D) = D.
Proof.
  revert A B C D. induction k as [|k IH]; intros A B C D HA HB HC HD.
  - rewrite (is_matrix_0_inv _ _ HA), (is_matrix_0_inv _ _ HB),
      (is_matrix_0_inv _ _ HC), (is_matrix_0_inv _ _ HD).
    repeat split; try done. constructor.
  - apply is_matrix_inv in HA as (a & A' & -> & La & HA).
    apply is_matrix_inv in HB as (b & B' & -> & Lb & HB).
    apply is_matrix_inv in HC as (c & C' & -> & Lc & HC).
    apply is_matrix_inv in HD as (d & D' & -> & Ld & HD).
    destruct (IH A' B' C' D' HA HB HC HD) as (Hm & E0 & E1 & E2 & E3).
    change (side_by_side (a :: A') (b :: B') (c :: C') (d :: D'))
      with ((a ++ b ++ c ++ d) :: side_by_side A' B' C' D').
    rewrite !slice_cons, E0, E1, E2, E3.
    split; [apply is_matrix_cons; [rewrite !length_app; lia|done]|].
    simpl Nat.mul. rewrite Nat.add_0_r.
    repeat split; f_equal.
    + rewrite drop_0. by rewrite take_app_length'.
    + rewrite drop_app_length' by done. by rewrite take_app_length'.
    + rewrite app_assoc, drop_app_length' by (rewrite length_app; lia).
      by rewrite take_app_length'.
    + rewrite !app_assoc, drop_app_length' by (rewrite !length_app; lia).
      by rewrite take_ge by lia.
Qed.

Lemma slice_mmap (g : T → T) (n j : nat) (t : mat) :
  slice n j (mmap g t) = mmap g (slice n j t).
Proof.
  unfold slice, mmap. rewrite !map_map. apply map_ext. intros r.
  by rewrite skipn_map, firstn_map.
Qed.

(** [orthogonal [r, k]] consumes one draw of the random source and, when
    NumPy's arrays have the shapes it documents, returns the factor of the
    singular value decomposition that has the requested shape, [u] when
    [k ≤ r] and [v] otherwise, as an [r] by [k] matrix; for a square shape
    this is [u], with whatever property the library gives it.  On an empty
    shape the read of [shape[0]] raises. *)
Theorem orthogonal_returns_factor_of_requested_shape :
  normal_has_shape → svd_has_shapes →
  (∀ seed, orthogonal [] seed = inl (IndexError "list index out of range")) ∧
  (∀ r k seed,
     let a := (np_random_normal (r, k) seed).1 in
     let seed' := (np_random_normal (r, k) seed).2 in
     let u := (np_linalg_svd a).1.1 in
     let v := (np_linalg_svd a).2 in
     let q := if decide (k ≤ r) then u else v in
     orthogonal [r; k] seed = inr (Mat q, seed') ∧ is_matrix r k q) ∧
  (∀ (P : mat → Prop) n seed,
     svd_u_satisfies P →
     ∃ q seed', orthogonal [n; n] seed = inr (Mat q, seed') ∧ is_matrix n n q ∧ P q).
Proof.
  intros Hnormal Hsvd. split; [done|]. split.
  - by apply orthogonal_factor.
  - intros P n seed HP.
    destruct (orthogonal_factor Hnormal Hsvd n n seed) as [Ho Hq].
    rewrite decide_True in Ho, Hq by done.
    eexists _, _. split; [exact Ho|]. split; [exact Hq|].
    apply (HP n), Hnormal.
Qed.

(** One square block drawn by the initializer. *)
Lemma orthogonal_block_square (P : mat → Prop) (n : nat) (seed : rng) :
  normal_has_shape → svd_has_shapes → svd_u_satisfies P →
  ∃ q seed',
    orthogonal [n; n] seed = inr (Mat q, seed') ∧
    orthogonal_block n seed = inr (q, seed') ∧ is_matrix n n q ∧ P q.
Proof.
  intros Hnormal Hsvd HP.
  destruct (orthogonal_factor Hnormal Hsvd n n seed) as [Ho Hq].
  rewrite decide_True in Ho, Hq by done.
  eexists _, _. split; [exact Ho|]. split; [|split; [exact Hq|]].
  - unfold orthogonal_block. by rewrite Ho.
  - apply (HP n), Hnormal.
Qed.

(** [bn_lstm_identity_initializer scale] on the shape [[n, 4 n]] of [W_hh].
    The initializer succeeds and makes three calls of [orthogonal [n, n]],
    one after the other on the random source; the matrix it returns has
    [n] rows and [4 n] columns and, each entry converted to the graph's
    dtype, its columns [n..2n] are [scale] times the identity and its
    columns [0..n], [2n..3n] and [3n..4n] are the results of the first,
    second and third call, each with the property the library gives the
    [u] factor of a square array. *)
Theorem bn_lstm_identity_initializer_blocks :
  normal_has_shape → svd_has_shapes →
  ∀ (P : mat → Prop), svd_u_satisfies P →
  ∀ (scale : T) (n : nat) (seed : rng),
    ∃ t q1 q2 q3 s1 s2 s3,
      orthogonal [n; n] seed = inr (Mat q1, s1) ∧
      orthogonal [n; n] s1 = inr (Mat q2, s2) ∧
      orthogonal [n; n] s2 = inr (Mat q3, s3) ∧
      P q1 ∧ P q2 ∧ P q3 ∧
      bn_lstm_identity_initializer scale [n; 4 * n] seed = inr (Mat t, s3) ∧
      is_matrix n (4 * n) t ∧
      slice n 0 t = mmap scast q1 ∧
      slice n 1 t = mmap scast (mmap (λ e, smul e scale) (identity n)) ∧
      slice n 2 t = mmap scast q2 ∧
      slice n 3 t = mmap scast q3.
Proof.
  intros Hnormal Hsvd P HP scale n seed.
  destruct (orthogonal_block_square P n seed Hnormal Hsvd HP)
    as (q1 & s1 & O1 & B1 & M1 & P1).
  destruct (orthogonal_block_square P n s1 Hnormal Hsvd HP)
    as (q2 & s2 & O2 & B2 & M2 & P2).
  destruct (orthogonal_block_square P n s2 Hnormal Hsvd HP)
    as (q3 & s3 & O3 & B3 & M3 & P3).
  set (M := mmap (λ e, smul e scale) (identity n)).
  assert (HM : is_matrix n n M) by apply is_matrix_mmap, is_matrix_identity.
  destruct (assemble_blocks n n M q1 q2 q3 HM M1 M2 M3)
    as (t1 & t2 & t3 & E1 & E2 & E3 & E4).
  destruct (slices_of_side_by_side n n q1 M q2 q3 M1 HM M2 M3)
    as (Hm & S0 & S1 & S2 & S3).
  exists (mmap scast (side_by_side q1 M q2 q3)), q1, q2, q3, s1, s2, s3.
  do 6 (split; [done|]). split.
  - unfold bn_lstm_identity_initializer, np_zeros. fold M.
    rewrite E1, B1, E2, B2, E3, B3.
    change (foldr Nat.mul 1 (tail [n; 4 * n])) with (4 * n * 1).
    rewrite Nat.mul_1_r, E4. reflexivity.
  - split; [by apply is_matrix_mmap|].
    rewrite !slice_mmap, S0, S1, S2, S3. done.
Qed.

End Initializers.

(** *** The library contracts hold of the computable instance *)

Lemma chunks_is_matrix {A : Type} `{Scalar A} (r k : nat) (l : list A) :
  length l = r * k → is_matrix r k (chunks r k l).
Proof.
  revert l. induction r as [|r IH]; intros l Hl.
  - apply is_matrix_nil.
  - simpl. apply is_matrix_cons.
    + rewrite length_take. lia.
    + apply IH. rewrite length_drop. lia.
Qed.

Lemma draws_length (n : nat) (seed : list Q) : length (Rational.draws n seed).1 = n.
Proof.
  unfold Rational.draws. simpl.
  rewrite length_take, length_app, length_replicate. lia.
Qed.

Lemma rational_normal_has_shape : normal_has_shape (T := Q) (rng := list Q).
Proof.
  intros r k seed.
  pose proof (draws_length (r * k) seed) as Hd.
  change (np_random_normal (r, k) seed).1
    with (chunks r k (Rational.draws (r * k) seed).1).
  by apply chunks_is_matrix.
Qed.

Lemma identity_row_length (n i : nat) (row : list Q) :
  identity n !! i = Some row → length row = n.
Proof.
  intros Hrow. destruct (is_matrix_identity (T := Q) n) as [_ Hw].
  unfold rows_of_width in Hw. rewrite Forall_forall in Hw.
  apply Hw. by eapply list_elem_of_lookup_2.
Qed.

Lemma rational_svd (a : list (list Q)) :
  np_linalg_svd a
  = (map (take ((shape_of a).1 `min` (shape_of a).2)) (identity (shape_of a).1),
     replicate ((shape_of a).1 `min` (shape_of a).2) 1%Q,
     take ((shape_of a).1 `min` (shape_of a).2) (identity (shape_of a).2)).
Proof. reflexivity. Qed.

Lemma rational_svd_has_shapes : svd_has_shapes (T := Q) (rng := list Q).
Proof.
  intros r k a Ha. rewrite rational_svd.
  rewrite (shape_of_matrix _ _ _ Ha). cbn [fst snd].
  destruct (is_matrix_identity (T := Q) r) as [Hl Hw].
  split.
  - split; [by rewrite length_map|].
    apply Forall_map. unfold rows_of_width in Hw.
    eapply Forall_impl; [exact Hw|]. intros row Hrow. simpl.
    rewrite length_take, Hrow. destruct r; cbv beta iota; lia.
  - destruct r as [|r]; [apply is_matrix_nil|].
    destruct (is_matrix_identity (T := Q) k) as [Hl' Hw'].
    split.
    + rewrite length_take, Hl'. lia.
    + unfold rows_of_width in *. by apply Forall_take.
Qed.

(** The [u] factor the instance returns for a square array is the identity. *)
Lemma rational_svd_u_identity :
  svd_u_satisfies (T := Q) (rng := list Q) (λ q, q = identity (length q)).
Proof.
  intros n a Ha. rewrite rational_svd.
  rewrite (shape_of_matrix _ _ _ Ha). cbn [fst snd].
  rewrite length_map.
  destruct (is_matrix_identity (T := Q) n) as [Hl Hw]. rewrite Hl.
  destruct n as [|n]; [done|]. rewrite Nat.min_id.
  rewrite <- (map_id (identity (S n))) at 2.
  apply map_ext_Forall. unfold rows_of_width in Hw.
  eapply Forall_impl; [exact Hw|]. intros row Hrow. simpl in *.
  by rewrite take_ge by lia.
Qed.

Lemma orthogonal_returns_factor_of_requested_shape_witness :
  normal_has_shape (T := Q) (rng := list Q) ∧
  svd_has_shapes (T := Q) (rng := list Q) ∧
  orthogonal [2; 3] [1; 2; 3; 4; 5; 6; 7]%Q
  = inr (Mat [[1; 0; 0]; [0; 1; 0]]%Q, [7%Q]) ∧
  orthogonal [3; 2] [1; 2; 3; 4; 5; 6; 7]%Q
  = inr (Mat [[1; 0]; [0; 1]; [0; 0]]%Q, [7%Q]).
Proof.
  pose proof rational_normal_has_shape as Hn.
  pose proof rational_svd_has_shapes as Hs.
  split; [exact Hn|]. split; [exact Hs|].
  destruct (orthogonal_returns_factor_of_requested_shape Hn Hs) as (_ & Hq & _).
  split.
  - rewrite (proj1 (Hq 2 3 [1; 2; 3; 4; 5; 6; 7]%Q)). vm_compute. reflexivity.
  - rewrite (proj1 (Hq 3 2 [1; 2; 3; 4; 5; 6; 7]%Q)). vm_compute. reflexivity.
Defined.

Lemma bn_lstm_identity_initializer_blocks_witness :
  normal_has_shape (T := Q) (rng := list Q) ∧
  svd_has_shapes (T := Q) (rng := list Q) ∧
  svd_u_satisfies (T := Q) (rng := list Q) (λ q, q = identity (length q)) ∧
  ∃ t s3,
    bn_lstm_identity_initializer (19 # 20)%Q [2; 4 * 2] (replicate 13 (1 # 3)%Q)
    = inr (Mat t, s3) ∧
    slice 2 1 t = [[19 # 20; 0]; [0; 19 # 20]]%Q ∧
    slice 2 0 t = identity 2 ∧ slice 2 2 t = identity 2 ∧ slice 2 3 t = identity 2 ∧
    s3 = [(1 # 3)%Q].
Proof.
  pose proof rational_normal_has_shape as Hn.
  pose proof rational_svd_has_shapes as Hs.
  pose proof rational_svd_u_identity as Hu.
  split; [exact Hn|]. split; [exact Hs|]. split; [exact Hu|].
  destruct (bn_lstm_identity_initializer_blocks Hn Hs _ Hu (19 # 20)%Q 2
              (replicate 13 (1 # 3)%Q))
    as (t & q1 & q2 & q3 & s1 & s2 & s3 & O1 & O2 & O3 & P1 & P2 & P3 & Hi & Hm
        & S0 & S1 & S2 & S3).
  exists t, s3. split; [exact Hi|].
  assert (C1 : orthogonal [2; 2] (replicate 13 (1 # 3)%Q)
               = inr (Mat (identity 2), replicate 9 (1 # 3)%Q))
    by (vm_compute; reflexivity).
  assert (q1 = identity 2 ∧ s1 = replicate 9 (1 # 3)%Q) as [-> ->]
    by (rewrite C1 in O1; by injection O1).
  assert (C2 : orthogonal [2; 2] (replicate 9 (1 # 3)%Q)
               = inr (Mat (identity 2), replicate 5 (1 # 3)%Q))
    by (vm_compute; reflexivity).
  assert (q2 = identity 2 ∧ s2 = replicate 5 (1 # 3)%Q) as [-> ->]
    by (rewrite C2 in O2; by injection O2).
  assert (C3 : orthogonal [2; 2] (replicate 5 (1 # 3)%Q)
               = inr (Mat (identity 2), [(1 # 3)%Q]))
    by (vm_compute; reflexivity).
  assert (q3 = identity 2 ∧ s3 = [(1 # 3)%Q]) as [-> ->]
    by (rewrite C3 in O3; by injection O3).
  rewrite S0, S1, S2, S3.
  repeat split; try done; vm_compute; reflexivity.
Defined.
(** * Properties *)

Section TextRNN_construction.
Context {T rng : Type} {SC : Scalar T} {LB : Lib T rng}.

Local Abbreviation mat := (list (list T)).

(** C10.  With a pretrained embedding supplied and an [embedding_type]
    other than 0 and 1, neither assignment to [self.W] runs, and the
    construction raises the attribute error of the read of [self.W] at the
    embedding lookup, whatever the other arguments and the state of the
    graph are. *)
Theorem TextRNN_init_no_embedding_mode
    (sequence_length num_classes vocab_size hidden_size embedding_size : nat)
    (embedding_type : Z) (l2_reg_lambda : T) (pretrained : mat)
    (sc : vscope) (bs : bstate T rng) :
  embedding_type ≠ 0%Z → embedding_type ≠ 1%Z →
  TextRNN_init sequence_length num_classes vocab_size hidden_size embedding_size
    embedding_type l2_reg_lambda (Some pretrained) sc bs
  = inl (AttributeError "'TextRNN' object has no attribute 'W'").
Proof.
  intros H0 H1.
  apply Z.eqb_neq in H0. apply Z.eqb_neq in H1.
  unfold TextRNN_init, mbind, B_bind, mret, B_ret, tf_Variable.
  rewrite H0, H1. reflexivity.
Qed.

(** C9, as the code has it.  With a pretrained embedding supplied, the
    construction never compares the array with [vocab_size] and
    [embedding_size]: its outcome is the same for every value of the two,
    and with [embedding_type] 0 the table [self.W] of a constructed model
    is, at every execution, the supplied array converted to the graph's
    dtype, whatever its shape. *)
Theorem TextRNN_init_ignores_declared_embedding_shape
    (sequence_length num_classes hidden_size : nat)
    (embedding_type : Z) (l2_reg_lambda : T) (pretrained : mat)
    (sc : vscope) (bs : bstate T rng) :
  (∀ vocab_size embedding_size vocab_size' embedding_size',
     TextRNN_init sequence_length num_classes vocab_size hidden_size embedding_size
       embedding_type l2_reg_lambda (Some pretrained) sc bs
     = TextRNN_init sequence_length num_classes vocab_size' hidden_size embedding_size'
       embedding_type l2_reg_lambda (Some pretrained) sc bs) ∧
  (∀ vocab_size embedding_size model bs',
     embedding_type = 0%Z →
     TextRNN_init sequence_length num_classes vocab_size hidden_size embedding_size
       embedding_type l2_reg_lambda (Some pretrained) sc bs = inr (model, bs') →
     ∀ feed st, W model feed st = Some (mmap scast pretrained, st)).
Proof.
  split; [reflexivity|].
  intros vocab_size embedding_size model bs' -> Hinit feed st.
  unfold TextRNN_init, mbind, B_bind, mret, B_ret, tf_Variable in Hinit.
  simpl in Hinit.
  destruct (bidirectional_dynamic_rnn _ _ _ _) as [e|[birnn bs1]]; [discriminate|].
  destruct (get_variable _ _ _ _ _ _) as [e|[Wn bs2]]; [discriminate|].
  injection Hinit as <- _. reflexivity.
Qed.

End TextRNN_construction.

(** *** The theorems at a concrete construction *)

Lemma TextRNN_init_no_embedding_mode_witness :
  (2 ≠ 0)%Z ∧ (2 ≠ 1)%Z ∧
  TextRNN_init 5 3 100 6 8 2 0%Q (Some Examples.pretrained)
    Rational.root (Rational.fresh [])
  = inl (AttributeError "'TextRNN' object has no attribute 'W'").
Proof.
  assert (H0 : (2 ≠ 0)%Z) by discriminate.
  assert (H1 : (2 ≠ 1)%Z) by discriminate.
  split; [exact H0|]. split; [exact H1|].
  exact (TextRNN_init_no_embedding_mode 5 3 100 6 8 2 0%Q Examples.pretrained
           Rational.root (Rational.fresh []) H0 H1).
Defined.

(** C9 as stated fails.  [vocab_size = 100] and [embedding_size = 8] are
    configured and a pretrained table of shape [2, 3] is supplied: with
    [embedding_type] 0 and with [embedding_type] 1 the construction returns
    a model. *)
Lemma TextRNN_init_accepts_mismatched_embedding :
  shape_of Examples.pretrained = (2, 3) ∧
  (∃ model bs',
     TextRNN_init 5 3 100 6 8 0 0%Q (Some Examples.pretrained)
       Rational.root (Rational.fresh []) = inr (model, bs')) ∧
  (∃ model bs',
     TextRNN_init 5 3 100 6 8 1 0%Q (Some Examples.pretrained)
       Rational.root (Rational.fresh []) = inr (model, bs')).
Proof.
  split; [reflexivity|].
  split.
  - destruct (TextRNN_init 5 3 100 6 8 0 0%Q (Some Examples.pretrained)
                Rational.root (Rational.fresh [])) as [e|[model bs']] eqn:E;
      [|by exists model, bs'].
    apply (f_equal (λ r, match r with inl _ => false | inr _ => true end)) in E.
    vm_compute in E. discriminate.
  - destruct (TextRNN_init 5 3 100 6 8 1 0%Q (Some Examples.pretrained)
                Rational.root (Rational.fresh [])) as [e|[model bs']] eqn:E;
      [|by exists model, bs'].
    apply (f_equal (λ r, match r with inl _ => false | inr _ => true end)) in E.
    vm_compute in E. discriminate.
Qed.

Lemma TextRNN_init_ignores_declared_embedding_shape_witness :
  ∃ model bs',
    TextRNN_init 5 3 100 6 8 0 0%Q (Some Examples.pretrained)
      Rational.root (Rational.fresh []) = inr (model, bs') ∧
    W model ∅ ∅ = Some (Examples.pretrained, ∅).
Proof.
  destruct (TextRNN_init 5 3 100 6 8 0 0%Q (Some Examples.pretrained)
              Rational.root (Rational.fresh [])) as [e|[model bs']] eqn:E.
  { apply (f_equal (λ r, match r with inl _ => false | inr _ => true end)) in E.
    vm_compute in E. discriminate. }
  exists model, bs'. split; [reflexivity|].
  exact (proj2 (TextRNN_init_ignores_declared_embedding_shape 5 3 6 0 0%Q
                  Examples.pretrained Rational.root (Rational.fresh []))
           100 8 model bs' eq_refl E ∅ ∅).
Defined.

(** ** TextRNN: what an execution computes *)

Section TextRNN_execution.
Context {T rng : Type} {SC : Scalar T} {LB : Lib T rng}.

Local Abbreviation vec := (list T).
Local Abbreviation mat := (list (list T)).

(** What a successful construction stores in [self.logits] and
    [self.loss]. *)
Lemma TextRNN_init_inv
    (sequence_length num_classes vocab_size hidden_size embedding_size : nat)
    (embedding_type : Z) (l2_reg_lambda : T) (pretrained_embedding : option mat)
    sc (bs bs' : bstate T rng) model :
  TextRNN_init sequence_length num_classes vocab_size hidden_size embedding_size
    embedding_type l2_reg_lambda pretrained_embedding sc bs = inr (model, bs') →
  ∃ birnn b,
    logits_and_loss model
    = TextRNN_run sequence_length num_classes hidden_size l2_reg_lambda
        (W model) birnn (scoped (vs_name sc) "W") b.
Proof.
  unfold TextRNN_init, mbind, B_bind, mret, B_ret, tf_Variable, draw, getattr, raise.
  intros Hinit.
  repeat match type of Hinit with
  | context [match ?e with _ => _ end] =>
      lazymatch e with
      | get_variable _ _ _ _ _ _ => fail
      | _ => destruct e eqn:?; simplify_eq/=
      end
  end.
  all: match type of Hinit with
       | context [get_variable ?a ?b ?c ?d ?e ?f] =>
           destruct (get_variable a b c d e f) as [?|[? ?]] eqn:E; [discriminate|];
           apply get_variable_name in E; simpl in E; subst
       end.
  all: injection Hinit as <- _; eauto.
Qed.



(** What a successful execution of [TextRNN_run] has read and computed. *)
Lemma TextRNN_run_inv
    (sequence_length num_classes hidden_size : nat) (l2_reg_lambda : T)
    (self_W : X T mat) birnn (Wn bn : string) feed
    (st st' : gmap string (variable T)) logits loss :
  TextRNN_run sequence_length num_classes hidden_size l2_reg_lambda self_W birnn Wn bn
    feed st = Some ((logits, loss), st') →
  ∃ y out Wv bv losses,
    feed !! "input_y" = Some (Mat y) ∧
    forallb (λ r, Nat.eqb (length r) num_classes) y = true ∧
    holds st' Wn (Mat Wv) ∧ holds st' bn (Vec bv) ∧
    logits = xw_plus_b num_classes out Wv bv ∧
    broadcast2 sxent y logits = Some losses ∧
    loss = sadd (reduce_mean (map ssum losses))
             (smul l2_reg_lambda
                (sadd (sadd (sconst 0) (l2_loss_mat Wv)) (l2_loss_vec bv))).
Proof.
  unfold TextRNN_run, mbind, X_bind, placeholder_ints, placeholder_mat,
    placeholder_scalar, placeholder, embedding_lookup, read_mat, read_vec,
    sigmoid_cross_entropy_with_logits, mret, X_ret, abort, mbind, X_bind, holds.
  intros Hrun.
  repeat (case_match; simplify_eq/=).
  eexists _, _, _, _, _. repeat split; eauto.
Qed.



Lemma TextRNN_init_frozen_table
    (sequence_length num_classes vocab_size hidden_size embedding_size : nat)
    (l2_reg_lambda : T) (pretrained : mat) sc (bs bs' : bstate T rng) model :
  TextRNN_init sequence_length num_classes vocab_size hidden_size embedding_size
    0 l2_reg_lambda (Some pretrained) sc bs = inr (model, bs') →
  ∀ feed st, W model feed st = Some (mmap scast pretrained, st).
Proof.
  intros Hinit feed st.
  unfold TextRNN_init, mbind, B_bind, mret, B_ret, tf_Variable in Hinit.
  simpl in Hinit.
  destruct (bidirectional_dynamic_rnn _ _ _ _) as [e|[birnn bs1]]; [discriminate|].
  destruct (get_variable _ _ _ _ _ _) as [e|[Wn bs2]]; [discriminate|].
  injection Hinit as <- _. reflexivity.
Qed.

Lemma embedding_lookup_outside (table : mat) (x : list (list nat)) feed
    (st : gmap string (variable T)) :
  Exists (Exists (λ i, length table ≤ i)) x →
  embedding_lookup table x feed st = None.
Proof.
  intros Hx. unfold embedding_lookup.
  rewrite (mapM_None_2 (mapM (λ i, table !! i)) x); [done|].
  eapply Exists_impl; [exact Hx|]. intros row Hrow. simpl.
  apply mapM_None_2. eapply Exists_impl; [exact Hrow|].
  intros i Hi. simpl. by apply lookup_ge_None_2.
Qed.

(** A frozen pretrained table shorter than a fed token index: the
    construction accepted the table whatever [vocab_size] was, and the
    execution fails at the lookup, whatever else is fed and whatever the
    store holds. *)
Theorem TextRNN_execution_fails_on_token_outside_table
    (sequence_length num_classes vocab_size hidden_size embedding_size : nat)
    (l2_reg_lambda : T) (pretrained : mat) sc (bs bs' : bstate T rng) model :
  TextRNN_init sequence_length num_classes vocab_size hidden_size embedding_size
    0 l2_reg_lambda (Some pretrained) sc bs = inr (model, bs') →
  ∀ feed (st : gmap string (variable T)) x,
    feed !! "input_x" = Some (Ints x) →
    Exists (Exists (λ i, length pretrained ≤ i)) x →
    logits_and_loss model feed st = None.
Proof.
  intros Hinit feed st x Hfeed Hx.
  pose proof (TextRNN_init_frozen_table _ _ _ _ _ _ _ _ _ _ _ Hinit) as HW.
  apply TextRNN_init_inv in Hinit as (birnn & b & ->).
  unfold TextRNN_run, mbind, X_bind, placeholder_ints, placeholder_mat,
    placeholder_scalar, placeholder, mbind, X_bind, mret, X_ret, abort.
  rewrite Hfeed.
  destruct (forallb _ x); [|done].
  destruct (feed !! "input_y") as [[| y | | |]|]; try done.
  destruct (forallb _ y); [|done].
  destruct (feed !! "dropout_keep_prob") as [[| | keep | |]|]; try done.
  rewrite HW. rewrite embedding_lookup_outside; [done|].
  unfold mmap. by rewrite length_map.
Qed.

End TextRNN_execution.

(** *** The execution theorems at a concrete model *)




Lemma TextRNN_execution_fails_on_token_outside_table_witness :
  ∃ model bs',
    TextRNN_init 2 3 100 1 8 0 0%Q (Some Examples.pretrained)
      Rational.root (Rational.fresh []) = inr (model, bs') ∧
    Examples.rnn_feed !! "input_x" = Some (Ints [[0; 1]; [2; 3]]) ∧
    Exists (Exists (λ i, length Examples.pretrained ≤ i)) [[0; 1]; [2; 3]] ∧
    logits_and_loss model Examples.rnn_feed (graph_vars bs') = None.
Proof.
  destruct (TextRNN_init 2 3 100 1 8 0 0%Q (Some Examples.pretrained)
              Rational.root (Rational.fresh [])) as [e|[model bs']] eqn:E.
  { apply (f_equal (λ r, match r with inl _ => false | inr _ => true end)) in E.
    vm_compute in E. discriminate. }
  assert (Hf : Examples.rnn_feed !! "input_x" = Some (Ints [[0; 1]; [2; 3]]))
    by (vm_compute; reflexivity).
  assert (Hx : Exists (Exists (λ i, length Examples.pretrained ≤ i)) [[0; 1]; [2; 3]]).
  { apply Exists_cons_tl, Exists_cons_hd, Exists_cons_hd. simpl. lia. }
  exists model, bs'. split; [reflexivity|]. split; [exact Hf|]. split; [exact Hx|].
  exact (TextRNN_execution_fails_on_token_outside_table 2 3 100 1 8 0%Q
           Examples.pretrained Rational.root _ _ _ E _ _ _ Hf Hx).
Defined.

(** ** Signs and bounds

    For every arithmetic whose comparison [sle] satisfies [order_laws]. *)

Section Signs.
Context {T rng : Type} {SC : Scalar T} {LB : Lib T rng}.
Variable sle : T → T → Prop.
Hypothesis laws : order_laws sle.

Local Abbreviation vec := (list T).
Local Abbreviation mat := (list (list T)).

Lemma ssum_number (v : vec) : is_number sle (ssum v) → Forall (is_number sle) v.
Proof using laws.
  unfold ssum. induction v as [|e v IH]; simpl; [constructor|].
  intros [He Hv]%(add_number sle laws). constructor; auto.
Qed.

Lemma ssum_nonneg (v : vec) : Forall (nonneg sle) v → nonneg sle (ssum v).
Proof using laws.
  unfold ssum. induction 1 as [|e v He _ IH]; simpl.
  - apply (zero_nonneg sle laws).
  - by apply (add_nonneg sle laws).
Qed.

(** A sum of terms none of which is negative is a NaN or is not negative. *)
Lemma ssum_nonneg_or_nan (v : vec) :
  Forall (nonneg_or_nan sle) v → nonneg_or_nan sle (ssum v).
Proof using laws.
  intros Hv Hnum. apply ssum_nonneg.
  apply ssum_number in Hnum.
  induction Hv as [|e v He _ IH]; [constructor|].
  inversion Hnum; subst. constructor; auto.
Qed.

Lemma reduce_mean_nonneg_or_nan (v : vec) :
  Forall (nonneg_or_nan sle) v → nonneg_or_nan sle (reduce_mean v).
Proof using laws.
  intros Hv Hnum. unfold reduce_mean in *.
  apply (div_count_nonneg sle laws); [|done].
  apply ssum_nonneg_or_nan; [done|].
  by apply (div_number sle laws) in Hnum as [? _].
Qed.

Lemma l2_loss_vec_nonneg_or_nan (v : vec) : nonneg_or_nan sle (l2_loss_vec v).
Proof using laws.
  intros Hnum. unfold l2_loss_vec in *.
  apply (div_const_nonneg sle laws); [done| |done].
  apply ssum_nonneg_or_nan.
  - apply Forall_map, Forall_forall. intros e _. apply (square_nonneg sle laws).
  - by apply (div_number sle laws) in Hnum as [? _].
Qed.

(** What holds of every pairing holds of every entry of a broadcast
    result. *)
Lemma broadcast_Forall {A B C : Type} (f : A → B → C) (P : A → Prop) (Q : C → Prop)
    (a : list A) (b : list B) (c : list C) :
  (∀ x y, P x → Q (f x y)) →
  Forall P a → broadcast f a b = Some c → Forall Q c.
Proof.
  intros Hf Ha. unfold broadcast. case_bool_decide as E.
  - intros [= <-]. clear E. revert b.
    induction Ha as [|x a Hx _ IH]; intros [|y b]; simpl; constructor; auto.
  - intros Hc.
    assert (Hmap : ∀ y, Forall Q (map (λ e, f e y) a)).
    { intros y. apply Forall_map. eapply Forall_impl; [exact Ha|]. intros x Hx. by apply Hf. }
    destruct a as [|a0 [|a1 a]].
    + destruct b as [|b0 [|b1 b]]; simplify_eq/=. constructor.
    + simplify_eq/=. apply Forall_map, Forall_forall. intros y _.
      apply Hf. by inversion Ha.
    + destruct b as [|b0 [|b1 b]]; simplify_eq/=. apply (Hmap b0).
Qed.

Lemma broadcast2_Forall (f : T → T → T) (P Q : T → Prop) (a b c : mat) :
  (∀ x y, P x → Q (f x y)) →
  Forall (Forall P) a → broadcast2 f a b = Some c → Forall (Forall Q) c.
Proof.
  intros Hf Ha. unfold broadcast2.
  destruct (broadcast (broadcast f) a b) as [rows|] eqn:E; [|discriminate].
  simpl. intros Hc%mapM_Some.
  assert (Hrows : Forall (λ o, ∀ l, o = Some l → Forall Q l) rows).
  { eapply (broadcast_Forall (broadcast f) (Forall P)); [|exact Ha|exact E].
    intros r s Hr l Hl. by eapply broadcast_Forall. }
  clear E. induction Hc as [|o l rows c Hol _ IH]; [constructor|].
  inversion Hrows; subst. constructor; auto.
Qed.

(** The loss is never negative.  With every fed label between 0 and 1 and
    a non-negative [l2_reg_lambda], the loss an execution of a constructed
    TextRNN returns is a NaN or is not negative: every cross-entropy term,
    every square and every count is non-negative, and sums, means and
    products of such values are non-negative unless they are NaN. *)
Theorem TextRNN_loss_nonnegative
    (sequence_length num_classes vocab_size hidden_size embedding_size : nat)
    (embedding_type : Z) (l2_reg_lambda : T) (pretrained_embedding : option mat)
    sc (bs bs' : bstate T rng) model :
  TextRNN_init sequence_length num_classes vocab_size hidden_size embedding_size
    embedding_type l2_reg_lambda pretrained_embedding sc bs = inr (model, bs') →
  nonneg sle l2_reg_lambda →
  ∀ feed (st st' : gmap string (variable T)) logits loss y,
    logits_and_loss model feed st = Some ((logits, loss), st') →
    feed !! "input_y" = Some (Mat y) →
    Forall (Forall (in_unit sle)) y →
    nonneg_or_nan sle loss.
Proof using laws.
  intros Hinit Hlambda feed st st' logits loss y Hrun Hfeed Hy Hnum.
  apply TextRNN_init_inv in Hinit as (birnn & b & Hmodel).
  rewrite Hmodel in Hrun.
  apply TextRNN_run_inv in Hrun
    as (y' & out & Wv & bv & losses & Hy' & _ & _ & _ & _ & Hlosses & ->).
  rewrite Hfeed in Hy'. injection Hy' as <-.
  apply (add_number sle laws) in Hnum as [Hmean Hpen].
  apply (add_nonneg sle laws).
  - apply reduce_mean_nonneg_or_nan; [|done].
    apply Forall_map. eapply Forall_impl.
    + eapply (broadcast2_Forall sxent (in_unit sle) (nonneg_or_nan sle));
        [|exact Hy|exact Hlosses].
      intros z x Hz. by apply (xent_nonneg sle laws).
    + intros row Hrow. by apply ssum_nonneg_or_nan.
  - apply (mul_nonneg sle laws); [done| |done].
    apply (mul_number sle laws) in Hpen as [_ Hl2].
    apply (add_number sle laws) in Hl2 as [Hl2 Hb].
    apply (add_number sle laws) in Hl2 as [_ HW].
    apply (add_nonneg sle laws); [apply (add_nonneg sle laws)|].
    + by apply (const_nonneg sle laws).
    + by apply l2_loss_vec_nonneg_or_nan.
    + by apply l2_loss_vec_nonneg_or_nan.
Qed.

(** Entry by entry, a product of a tanh and a sigmoid. *)
Lemma gated_tanh_range (a b : mat) :
  Forall (Forall (in_sym_unit_or_nan sle)) (mmul (mmap stanh a) (mmap ssigmoid b)).
Proof using laws.
  unfold mmul, mmap, vmul. revert b.
  induction a as [|r a IH]; intros [|s b]; simpl map; simpl zip_with;
    try constructor; [|apply IH].
  clear IH. revert s. induction r as [|x r IHr]; intros [|y s]; simpl map; simpl zip_with;
    try constructor; [|apply IHr].
  intros [Hx Hy]%(mul_number sle laws).
  apply (mul_range sle laws).
  - by apply (tanh_range sle laws).
  - by apply (sigmoid_range sle laws).
Qed.

(** With the tanh activation every entry of the output of a step, which is
    also the hidden state handed to the next step, is a NaN or lies between
    -1 and 1, bounds included: it is a tanh multiplied by a sigmoid. *)
Theorem call_output_bounded_with_tanh
    (self : BatchNormLSTMCell) inputs scope sc (bs bs' : bstate T rng) step :
  call self inputs scope sc bs = inr (step, bs') →
  _activation self = stanh →
  ∀ (st st' : gmap string (variable T)) w x c h feed output new_c new_h,
    cell_store st (scoped (vs_name sc) (scope_or scope "BatchNormLSTMCell")) w →
    step x (c, h) feed st = Some ((output, (new_c, new_h)), st') →
    output = new_h ∧ Forall (Forall (in_sym_unit_or_nan sle)) new_h.
Proof using laws.
  intros Hcall Hact st st' w x c h feed output new_c new_h Hstore Hrun.
  apply call_inv in Hcall as ->.
  rewrite (call_run_eq self _ w) in Hrun by done.
  injection Hrun as <- <- <- _. split; [done|].
  unfold lstm_new_h. rewrite Hact. apply gated_tanh_range.
Qed.

(** The variance of a batch is a mean of squares. *)
Lemma batch_var_nonneg_or_nan (size : nat) (x : mat) :
  Forall (nonneg_or_nan sle) (moments size x).2.
Proof using laws.
  unfold moments. simpl. apply Forall_map, Forall_forall. intros col _.
  apply reduce_mean_nonneg_or_nan, Forall_map, Forall_forall. intros e _.
  apply (square_nonneg sle laws).
Qed.

Lemma moving_average_nonneg_or_nan (pop batch_stat : vec) (decay : T) :
  in_unit sle decay →
  Forall (nonneg_or_nan sle) pop → Forall (nonneg_or_nan sle) batch_stat →
  Forall (nonneg_or_nan sle) (moving_average pop batch_stat decay).
Proof using laws.
  intros Hd Hp. unfold moving_average, vadd, vscale. revert batch_stat.
  induction Hp as [|p pop Hp0 _ IH]; intros [|b batch_stat] Hb;
    simpl map; simpl zip_with; try constructor.
  - inversion Hb; subst.
    intros [Hl Hr]%(add_number sle laws). apply (add_nonneg sle laws).
    + apply (mul_nonneg sle laws); [|apply Hd|done].
      apply Hp0. by apply (mul_number sle laws) in Hl as [? _].
    + apply (mul_nonneg sle laws); [|by apply (complement_nonneg sle laws)|done].
      match goal with H : nonneg_or_nan sle b |- _ => apply H end.
      by apply (mul_number sle laws) in Hr as [? _].
  - inversion Hb; subst. by apply IH.
Qed.

(** The running variance never turns negative.  With a decay between 0 and
    1 (the default 0.999 is), a training-mode execution of a constructed
    [batch_norm] on a store none of whose [pop_var] entries is negative
    leaves a [pop_var] none of whose entries is negative (an entry may be a
    NaN, before or after): the variance of a batch is a mean of squares, and
    the update weighs it and the old entry by [1 - decay] and [decay]. *)
Theorem batch_norm_keeps_pop_var_nonnegative
    x name_scope epsilon decay sc (bs bs' : bstate T rng) (bn : mat → X T mat) size :
  x !! 1 = Some (Some size) →
  batch_norm x name_scope true epsilon decay sc bs = inr (bn, bs') →
  in_unit sle decay →
  in_unit sle default_decay ∧
  ∀ (st st' : gmap string (variable T)) p xv feed r,
    bn_site st (scoped (vs_name sc) name_scope) p →
    Forall (nonneg_or_nan sle) (bn_pop_var p) →
    bn xv feed st = Some (r, st') →
    ∃ pop_var',
      holds st' (scoped (scoped (vs_name sc) name_scope) "pop_var") (Vec pop_var') ∧
      Forall (nonneg_or_nan sle) pop_var'.
Proof using laws.
  intros Hx Hb Hd. split.
  { by apply (const_unit sle laws). }
  intros st st' p xv feed r Hsite Hpv Hrun.
  apply batch_norm_inv in Hb as (size' & Hx' & ->).
  rewrite Hx in Hx'. injection Hx' as <-.
  rewrite tf_cond_constant in Hrun. simpl default in Hrun.
  rewrite (batch_statistics_run _ _ _ p) in Hrun by done.
  injection Hrun as _ <-.
  destruct (bn_trained_store_site st size _ p decay xv Hsite) as (_ & _ & _ & Hv).
  eexists. split; [exact Hv|].
  apply moving_average_nonneg_or_nan; [done|done|apply batch_var_nonneg_or_nan].
Qed.

End Signs.

(** *** The real numbers satisfy the laws *)

Section Real_laws.
Import Real.
Local Open Scope R_scope.

Lemma real_sxent_nonneg (z x : R) : 0 <= z <= 1 → 0 <= sxent z x.
Proof.
  intros [Hz0 Hz1]. simpl.
  assert (Hln : 0 < ln (1 + exp (- Rabs x))).
  { rewrite <- ln_1. apply ln_increasing; [lra|].
    pose proof (exp_pos (- Rabs x)). lra. }
  unfold Rmax. destruct (Rle_dec x 0); nra.
Qed.

Lemma real_sigmoid_bounds (x : R) : 0 < ssigmoid x < 1.
Proof.
  simpl. pose proof (exp_pos (- x)) as He.
  assert (Hinv : / (1 + exp (- x)) * (1 + exp (- x)) = 1) by (apply Rinv_l; lra).
  assert (Hpos : 0 < / (1 + exp (- x))) by (apply Rinv_0_lt_compat; lra).
  split; [done|]. nra.
Qed.

Lemma real_tanh_bounds (x : R) : -1 < stanh x < 1.
Proof.
  simpl. unfold tanh, sinh, cosh.
  pose proof (exp_pos x) as H1. pose proof (exp_pos (- x)) as H2.
  set (a := exp x) in *. set (b := exp (- x)) in *.
  assert (E : (a - b) / 2 / ((a + b) / 2) * (a + b) = a - b) by (field; lra).
  set (t := (a - b) / 2 / ((a + b) / 2)) in *.
  split; nra.
Qed.

Lemma real_minus_one : sconst (-1) = -1.
Proof. simpl. unfold Q2R. simpl. lra. Qed.

Lemma real_order_laws : order_laws (T := R) Rle.
Proof.
  constructor; unfold nonneg_or_nan, nonneg, in_unit, in_sym_unit, is_number;
    rewrite ?real_minus_one; simpl.
  - lra.
  - intros q Hq%Qle_Rle. rewrite RMicromega.Q2R_0 in Hq. done.
  - intros q Hq0%Qle_Rle Hq1%Qle_Rle.
    rewrite RMicromega.Q2R_0 in Hq0. rewrite RMicromega.Q2R_1 in Hq1. done.
  - intros n. apply pos_INR.
  - intros a b _. split; apply Rle_refl.
  - intros a b _. split; apply Rle_refl.
  - intros a b _. split; apply Rle_refl.
  - intros a b Ha Hb. lra.
  - intros a b Ha Hb _. nra.
  - intros a _. nra.
  - intros a n Ha _. unfold Rdiv. apply Rmult_le_pos; [done|].
    destruct n as [|n].
    + simpl. rewrite Rinv_0. lra.
    + left. apply Rinv_0_lt_compat, lt_0_INR. lia.
  - intros a q Hq%Qlt_Rlt Ha _. rewrite RMicromega.Q2R_0 in Hq.
    unfold Rdiv. apply Rmult_le_pos; [done|]. left. by apply Rinv_0_lt_compat.
  - intros d [Hd0 Hd1]. lra.
  - intros z x Hz _. by apply real_sxent_nonneg.
  - intros x _. pose proof (real_sigmoid_bounds x) as Hs. simpl in Hs. lra.
  - intros x _. pose proof (real_tanh_bounds x) as Ht. simpl in Ht. lra.
  - intros a b [Ha0 Ha1] [Hb0 Hb1]. split; nra.
Qed.

End Real_laws.

(** *** The theorems on signs and bounds at a concrete model, cell and site *)

Import Real.

Lemma real_rnn_built_succeeds :
  ∃ model bs',
    RealExamples.rnn_built = inr (model, bs') ∧
    RealExamples.rnn_run = logits_and_loss model ∧
    RealExamples.rnn_graph = graph_vars bs'.
Proof.
  assert (Hok : match RealExamples.rnn_built with inr _ => true | inl _ => false end
                = true)
    by (vm_compute; reflexivity).
  unfold RealExamples.rnn_run, RealExamples.rnn_graph.
  destruct RealExamples.rnn_built as [e|[model bs']]; [discriminate|].
  by exists model, bs'.
Qed.

Lemma real_rnn_run_succeeds :
  ∃ logits loss st',
    RealExamples.rnn_run RealExamples.rnn_feed RealExamples.rnn_graph
    = Some ((logits, loss), st').
Proof. eexists _, _, _. vm_compute. reflexivity. Qed.

Lemma TextRNN_loss_nonnegative_witness :
  ∃ model bs' logits loss st',
    RealExamples.rnn_built = inr (model, bs') ∧
    (0 <= 1 / 2)%R ∧
    logits_and_loss model RealExamples.rnn_feed (graph_vars bs')
    = Some ((logits, loss), st') ∧
    RealExamples.rnn_feed !! "input_y" = Some (Mat RealExamples.rnn_labels) ∧
    Forall (Forall (λ z, 0 <= z ∧ z <= 1)%R) RealExamples.rnn_labels ∧
    (loss <= loss)%R ∧
    (0 <= loss)%R.
Proof.
  destruct real_rnn_built_succeeds as (model & bs' & Hb & Hr & Hg).
  destruct real_rnn_run_succeeds as (logits & loss & st' & Hrun).
  rewrite Hr, Hg in Hrun.
  assert (Hl : (0 <= 1 / 2)%R) by lra.
  assert (Hf : RealExamples.rnn_feed !! "input_y" = Some (Mat RealExamples.rnn_labels))
    by (vm_compute; reflexivity).
  assert (Hy : Forall (Forall (λ z, 0 <= z ∧ z <= 1)%R) RealExamples.rnn_labels)
    by (repeat constructor; lra).
  assert (Hn : (loss <= loss)%R) by apply Rle_refl.
  exists model, bs', logits, loss, st'.
  do 6 (split; [assumption|]).
  exact (TextRNN_loss_nonnegative Rle real_order_laws 2 3 4 1 2 0 (1 / 2)%R None
           Real.root _ _ _ Hb Hl _ _ _ _ _ _ Hrun Hf Hy Hn).
Defined.

Lemma real_cell_built_succeeds :
  ∃ bs',
    RealExamples.cell_built = inr (RealExamples.cell_step, bs') ∧
    RealExamples.cell_graph = graph_vars bs'.
Proof.
  assert (Hok : match RealExamples.cell_built with inr _ => true | inl _ => false end
                = true)
    by (vm_compute; reflexivity).
  unfold RealExamples.cell_step, RealExamples.cell_graph.
  destruct RealExamples.cell_built as [e|[step bs']]; [discriminate|].
  by exists bs'.
Qed.

Lemma real_cell_graph_store :
  cell_store RealExamples.cell_graph "BatchNormLSTMCell" RealExamples.cell_w.
Proof. repeat split; vm_compute; reflexivity. Qed.

Lemma real_cell_step_succeeds :
  ∃ output new_c new_h st',
    RealExamples.cell_step RealExamples.cell_x
      (RealExamples.cell_c, RealExamples.cell_h) ∅ RealExamples.cell_graph
    = Some ((output, (new_c, new_h)), st').
Proof.
  destruct real_cell_built_succeeds as (bs' & Hb & _).
  apply call_inv in Hb. rewrite Hb.
  eexists _, _, _, _.
  apply (call_run_eq RealExamples.cell _ RealExamples.cell_w).
  apply real_cell_graph_store.
Qed.

Lemma call_output_bounded_with_tanh_witness :
  ∃ bs' output new_c new_h st',
    RealExamples.cell_built = inr (RealExamples.cell_step, bs') ∧
    _activation RealExamples.cell = stanh ∧
    cell_store RealExamples.cell_graph "BatchNormLSTMCell" RealExamples.cell_w ∧
    RealExamples.cell_step RealExamples.cell_x
      (RealExamples.cell_c, RealExamples.cell_h) ∅ RealExamples.cell_graph
    = Some ((output, (new_c, new_h)), st') ∧
    output = new_h ∧ Forall (Forall (λ e, -1 <= e ∧ e <= 1)%R) new_h.
Proof.
  destruct real_cell_built_succeeds as (bs' & Hb & Hg).
  destruct real_cell_step_succeeds as (output & new_c & new_h & st' & Hrun).
  pose proof real_cell_graph_store as Hs.
  exists bs', output, new_c, new_h, st'.
  split; [exact Hb|]. split; [reflexivity|]. split; [exact Hs|]. split; [exact Hrun|].
  destruct (call_output_bounded_with_tanh Rle real_order_laws RealExamples.cell
              [None; Some 2] None Real.root _ _ _ Hb eq_refl _ _ _ _ _ _ _ _ _ _ Hs Hrun)
    as [Hout Hrange].
  split; [exact Hout|].
  eapply Forall_impl; [exact Hrange|]. intros row Hrow.
  eapply Forall_impl; [exact Hrow|]. intros e He.
  rewrite <- real_minus_one. apply He, Rle_refl.
Defined.

Lemma real_bn_built_succeeds :
  ∃ bs',
    RealExamples.bn_built = inr (RealExamples.bn_op, bs') ∧
    RealExamples.bn_graph = graph_vars bs'.
Proof.
  assert (Hok : match RealExamples.bn_built with inr _ => true | inl _ => false end
                = true)
    by (vm_compute; reflexivity).
  unfold RealExamples.bn_op, RealExamples.bn_graph.
  destruct RealExamples.bn_built as [e|[bn bs']]; [discriminate|].
  by exists bs'.
Qed.

Lemma real_bn_site : bn_site RealExamples.bn_graph "bn" RealExamples.bn_w.
Proof. repeat split; vm_compute; reflexivity. Qed.

Lemma real_bn_run_succeeds :
  ∃ r st',
    RealExamples.bn_op RealExamples.batch ∅ RealExamples.bn_graph = Some (r, st').
Proof.
  destruct real_bn_built_succeeds as (bs' & Hb & _).
  apply batch_norm_inv in Hb as (size & _ & Hb). rewrite Hb.
  eexists _, _. rewrite tf_cond_constant.
  apply (batch_statistics_run _ _ _ RealExamples.bn_w), real_bn_site.
Qed.

Lemma batch_norm_keeps_pop_var_nonnegative_witness :
  ∃ bs' r st' pop_var',
    ([None; Some 2] : list (option nat)) !! 1 = Some (Some 2) ∧
    RealExamples.bn_built = inr (RealExamples.bn_op, bs') ∧
    (0 <= default_decay ∧ default_decay <= 1)%R ∧
    bn_site RealExamples.bn_graph "bn" RealExamples.bn_w ∧
    Forall (λ v, 0 <= v)%R (bn_pop_var RealExamples.bn_w) ∧
    RealExamples.bn_op RealExamples.batch ∅ RealExamples.bn_graph = Some (r, st') ∧
    holds st' "bn/pop_var" (Vec pop_var') ∧
    Forall (λ v, 0 <= v)%R pop_var'.
Proof.
  destruct real_bn_built_succeeds as (bs' & Hb & Hg).
  destruct real_bn_run_succeeds as (r & st' & Hrun).
  assert (Hx : ([None; Some 2] : list (option nat)) !! 1 = Some (Some 2)) by reflexivity.
  assert (Hd : (0 <= default_decay ∧ default_decay <= 1)%R).
  { unfold default_decay. simpl. unfold Q2R. simpl. lra. }
  pose proof real_bn_site as Hs.
  assert (Hp : Forall (λ v, 0 <= v)%R (bn_pop_var RealExamples.bn_w)).
  { assert (E : bn_pop_var RealExamples.bn_w = [1; 1]%R) by (vm_compute; reflexivity).
    rewrite E. repeat constructor; lra. }
  destruct (batch_norm_keeps_pop_var_nonnegative Rle real_order_laws
              [None; Some 2] "bn" default_epsilon
              default_decay Real.root _ _ _ 2 Hx Hb Hd) as [_ Hinv].
  assert (Hp' : Forall (nonneg_or_nan Rle) (bn_pop_var RealExamples.bn_w)).
  { eapply Forall_impl; [exact Hp|]. intros v Hv _. exact Hv. }
  destruct (Hinv _ _ _ _ _ _ Hs Hp' Hrun) as (pop_var' & Hv & Hnn).
  exists bs', r, st', pop_var'.
  do 6 (split; [assumption|]). split; [exact Hv|].
  eapply Forall_impl; [exact Hnn|]. intros v Hv'. apply Hv', Rle_refl.
Defined.
